(** * Mean-variance portfolio optimisation: Load_Data.py and app.py

    A shallow embedding of the portfolio core ([Load_Data.py]) and of the
    form handling of the Streamlit front end ([app.py]).

    Numbers.  Python and numpy floats are idealised as real numbers: a
    finite float is a real [Num r], and the three non-finite values that
    the code produces or tests for ([np.inf], [-np.inf], [np.nan]) are
    separate constructors of [float64].  Rounding error and signed zeros
    are outside the model.

    External libraries.  [scipy.optimize.minimize] and the Stooq reader of
    [pandas_datareader] are not part of the repository; they are section
    variables, so every theorem holds for every solver and every data
    source.  Each call of the solver or of the reader is recorded in an
    event log, in the order of the calls. *)

From Stdlib Require Import Reals Lra Lia List Bool ZArith String Ascii.
Import ListNotations.

Local Open Scope R_scope.

(* ------------------------------------------------------------------ *)
(** * numpy values *)

Module Np.

(** A float as the code sees it: finite, infinite or not-a-number. *)
Inductive float64 : Type :=
| Num (r : R)
| PosInf
| NegInf
| NaN.

Definition Rleb (a b : R) : bool := if Rle_dec a b then true else false.
Definition Rltb (a b : R) : bool := if Rlt_dec a b then true else false.

(** [np.isnan] *)
Definition isnan (v : float64) : bool :=
  match v with NaN => true | _ => false end.

(** The infinity with the sign of [r]; [nan] when [r] is zero
    (as in [0 * inf]). *)
Definition signed_inf (r : R) : float64 :=
  if Rltb 0 r then PosInf else if Rltb r 0 then NegInf else NaN.

(** Unary minus. *)
Definition fneg (v : float64) : float64 :=
  match v with
  | Num r => Num (- r)
  | PosInf => NegInf
  | NegInf => PosInf
  | NaN => NaN
  end.

(** Multiplication. *)
Definition fmul (a b : float64) : float64 :=
  match a, b with
  | NaN, _ | _, NaN => NaN
  | Num x, Num y => Num (x * y)
  | Num x, PosInf | PosInf, Num x => signed_inf x
  | Num x, NegInf | NegInf, Num x => signed_inf (- x)
  | PosInf, PosInf | NegInf, NegInf => PosInf
  | PosInf, NegInf | NegInf, PosInf => NegInf
  end.

(** Division of numpy scalars: a zero denominator gives an infinity or
    [nan] (with a warning), it does not raise. *)
Definition fdiv (a b : float64) : float64 :=
  match a, b with
  | NaN, _ | _, NaN => NaN
  | Num x, Num y => if Req_dec_T y 0 then signed_inf x else Num (x / y)
  | Num _, (PosInf | NegInf) => Num 0
  | PosInf, Num y => if Rltb y 0 then NegInf else PosInf
  | NegInf, Num y => if Rltb y 0 then PosInf else NegInf
  | (PosInf | NegInf), (PosInf | NegInf) => NaN
  end.

(** [np.sqrt] on a finite argument: [nan] below zero. *)
Definition np_sqrt (r : R) : float64 :=
  if Rltb r 0 then NaN else Num (sqrt r).

(** [np.isclose(a, b)] with its default tolerances [rtol = 1e-05] and
    [atol = 1e-08]: [|a - b| <= atol + rtol * |b|] on finite values,
    equality on infinities, false on [nan]. *)
Definition rtol : R := 1 / 100000.
Definition atol : R := 1 / 100000000.

Definition isclose (a b : float64) : bool :=
  match a, b with
  | Num x, Num y => Rleb (Rabs (x - y)) (atol + rtol * Rabs y)
  | PosInf, PosInf | NegInf, NegInf => true
  | _, _ => false
  end.

(** Round half to even ([np.rint]). *)
Definition rint (y : R) : Z :=
  let f := Int_part y in
  let d := frac_part y in
  if Rltb d (1 / 2) then f
  else if Rltb (1 / 2) d then (f + 1)%Z
  else if Z.even f then f else (f + 1)%Z.

(** [round(v, 2)] on a numpy scalar, and [Series.round(2)]: scale by 100,
    round half to even, scale back. *)
Definition round2R (r : R) : R := IZR (rint (r * 100)) / 100.

Definition round2 (v : float64) : float64 :=
  match v with
  | Num r => Num (round2R r)
  | other => other
  end.

(** [np.sum] of a vector. *)
Fixpoint sum (l : list R) : R :=
  match l with
  | [] => 0
  | a :: l' => a + sum l'
  end.

(** Elementwise product of two vectors of the same length. *)
Fixpoint mul (a b : list R) : list R :=
  match a, b with
  | x :: a', y :: b' => x * y :: mul a' b'
  | _, _ => []
  end.

(** [np.dot] of two vectors. *)
Definition dot (a b : list R) : R := sum (mul a b).

(** [np.dot] of a matrix (a list of rows) and a vector. *)
Definition matvec (m : list (list R)) (v : list R) : list R :=
  map (fun row => dot row v) m.

(** [np.linspace(start, stop, num)] with the end point included:
    [start + i * step] for [step = (stop - start) / (num - 1)], the last
    sample being set to [stop] itself. *)
Definition linspace (start stop : R) (num : nat) : list R :=
  let div := (num - 1)%nat in
  let step := (stop - start) / INR div in
  let y := map (fun i => INR i * step + start) (seq 0 num) in
  if (1 <? num)%nat then removelast y ++ [stop] else y.

End Np.

(* ------------------------------------------------------------------ *)
(** * Exceptions, effects *)

Module Py.

(** The exceptions that the modelled code can raise.  [ShapeMismatch] is
    numpy's [ValueError] for operands of different shapes. *)
Inductive exn : Type :=
| ValueError (msg : string)
| ZeroDivisionError
| ShapeMismatch.

(** The outcome of a computation that may raise. *)
Inductive res (A : Type) : Type :=
| Ok (a : A)
| Raise (e : exn).
Arguments Ok {A} a.
Arguments Raise {A} e.

Definition rbind {A B} (c : res A) (k : A -> res B) : res B :=
  match c with
  | Ok a => k a
  | Raise e => Raise e
  end.

(** A computation that may raise and that appends to a log of events of
    type [E]; the log survives an exception. *)
Definition M (E A : Type) : Type := list E -> res A * list E.

Definition ret {E A} (a : A) : M E A := fun log => (Ok a, log).
Definition raise {E A} (e : exn) : M E A := fun log => (Raise e, log).
Definition lift {E A} (c : res A) : M E A := fun log => (c, log).
Definition emit {E} (ev : E) : M E unit := fun log => (Ok tt, log ++ [ev]).

Definition bind {E A B} (c : M E A) (k : A -> M E B) : M E B :=
  fun log =>
    match c log with
    | (Ok a, log') => k a log'
    | (Raise e, log') => (Raise e, log')
    end.

End Py.

Import Py.

Declare Scope py_scope.
Delimit Scope py_scope with py.
Notation "x <- c ;; k" := (bind c (fun x => k))
  (at level 61, c at next level, right associativity) : py_scope.
Notation "' pat <- c ;; k" := (bind c (fun x => match x with pat => k end))
  (at level 61, pat pattern, c at next level, right associativity) : py_scope.

(* ------------------------------------------------------------------ *)
(** * Load_Data.py *)

Module LoadData.
Import Np.

Definition TRADING_DAYS : R := 252.

(** A pandas Series of floats: labelled values, in index order. *)
Definition Series (asset : Type) : Type := list (asset * R).

(** The covariance DataFrame, as the list of its rows. *)
Definition DataFrame : Type := list (list R).

(** The arguments of one call of [scipy.optimize.minimize]. *)
Record Problem : Type := mkProblem {
  objective : list R -> res float64;
  x0 : list R;
  method : string;
  bounds : list (R * R);
  constraints : list (list R -> res R)   (* each of type "eq" *)
}.

(** The fields of scipy's [OptimizeResult] that the code reads. *)
Record OptimizeResult : Type := mkOptimizeResult {
  x : list R;
  success : bool;
  message : string;
  fun_ : float64
}.

(** What the program does to the outside world. *)
Inductive event (asset : Type) : Type :=
| Fetch (stocks : list asset) (start end_ : Z)
| Solve (p : Problem).
Arguments Fetch {asset} stocks start end_.
Arguments Solve {asset} p.

(** The eight values returned by [calculated_result]. *)
Record Result (asset : Type) : Type := mkResult {
  opt_return : R;
  opt_std : float64;
  optimal_allocation : list (asset * R);
  minimal_return : R;
  minimal_std : float64;
  minimal_allocation : list (asset * R);
  ef_vols : list float64;
  target_returns : list R
}.
Arguments mkResult {asset}.
Arguments opt_return {asset}.
Arguments opt_std {asset}.
Arguments optimal_allocation {asset}.
Arguments minimal_return {asset}.
Arguments minimal_std {asset}.
Arguments minimal_allocation {asset}.
Arguments ef_vols {asset}.
Arguments target_returns {asset}.

(** One trace of the plotly figure; a coordinate [None] is a point that
    plotly leaves out. *)
Record Scatter : Type := mkScatter {
  name : string;
  mode : string;
  xs : list (option float64);
  ys : list R
}.

Definition Figure : Type := list Scatter.

Section Core.

Variable asset : Type.

(** [scipy.optimize.minimize]: an outcome, or an exception of its own. *)
Variable minimize : Problem -> res OptimizeResult.

(** The Stooq reader followed by [pct_change().dropna()], [mean()] and
    [cov()]: [None] when the table of returns is empty. *)
Variable stooq_statistics :
  list asset -> Z -> Z -> res (option (Series asset * DataFrame)).

Local Open Scope py_scope.
Local Open Scope string_scope.

Definition get_data (stocks : list asset) (start end_ : Z)
  : M (event asset) (Series asset * DataFrame) :=
  match stocks with
  | [] => raise (ValueError "At least one ticker is required.")
  | _ :: _ =>
    if (start >=? end_)%Z
    then raise (ValueError "Start date must be earlier than end date.")
    else
      _ <- emit (Fetch stocks start end_) ;;
      stats <- lift (stooq_statistics stocks start end_) ;;
      match stats with
      | None =>
        raise (ValueError "No return data available for the selected inputs.")
      | Some (mean_return, covar) => ret (mean_return, covar)
      end
  end.

(** numpy raises unless the mean vector has the length of the weights and
    the covariance matrix is square of that size. *)
Definition shapes_match (weights : list R) (mean_return : Series asset)
    (covar : DataFrame) : bool :=
  (List.length mean_return =? List.length weights)%nat
  && (List.length covar =? List.length weights)%nat
  && forallb (fun row => (List.length row =? List.length weights)%nat) covar.

Definition port_performance (weights : list R) (mean_return : Series asset)
    (covar : DataFrame) : res (R * float64) :=
  if shapes_match weights mean_return covar then
    let port_return :=
      (Np.sum (Np.mul (map snd mean_return) weights) * TRADING_DAYS)%R in
    let port_std :=
      fmul (np_sqrt (dot weights (matvec covar weights)))
           (np_sqrt TRADING_DAYS) in
    Ok (port_return, port_std)
  else Raise ShapeMismatch.

Definition negative_sharpe (weights : list R) (mean_return : Series asset)
    (covar : DataFrame) (risk_free_rate : R) : res float64 :=
  rbind (port_performance weights mean_return covar)
    (fun '(port_return, port_std) =>
       if isclose port_std (Num 0) then Ok PosInf
       else
         let sharpe_ratio :=
           fdiv (Num (port_return - risk_free_rate)) port_std in
         Ok (fneg sharpe_ratio)).

(** [lambda x: np.sum(x) - 1] *)
Definition budget (x : list R) : res R := Ok (Np.sum x - 1)%R.

(** [[1.0 / num_assets] * num_assets]; the division raises for no asset. *)
Definition equal_weights (num_assets : nat) : res (list R) :=
  match num_assets with
  | O => Raise ZeroDivisionError
  | S _ => Ok (repeat (1 / INR num_assets)%R num_assets)
  end.

Definition solve (p : Problem) : M (event asset) OptimizeResult :=
  _ <- emit (Solve p) ;; lift (minimize p).

(** The arguments that [max_sharpe_ratio] hands to the solver. *)
Definition max_sharpe_problem (mean_return : Series asset)
    (covar : DataFrame) (risk_free_rate : R) (constraint_set : R * R)
    (initial_weights : list R) : Problem :=
  {| objective :=
       fun w => negative_sharpe w mean_return covar risk_free_rate;
     x0 := initial_weights;
     method := "SLSQP";
     bounds := repeat constraint_set (List.length mean_return);
     constraints := [budget] |}.

Definition max_sharpe_ratio (mean_return : Series asset) (covar : DataFrame)
    (risk_free_rate : R) (constraint_set : R * R)
  : M (event asset) OptimizeResult :=
  let num_assets := List.length mean_return in
  initial_weights <- lift (equal_weights num_assets) ;;
  solve (max_sharpe_problem mean_return covar risk_free_rate constraint_set
                            initial_weights).

Definition portfolio_var (weights : list R) (mean_return : Series asset)
    (covar : DataFrame) : res float64 :=
  rbind (port_performance weights mean_return covar)
        (fun p => Ok (snd p)).

(** The arguments that [min_portfolio_var] hands to the solver. *)
Definition min_vol_problem (mean_return : Series asset) (covar : DataFrame)
    (constraint_set : R * R) (initial_weights : list R) : Problem :=
  {| objective := fun w => portfolio_var w mean_return covar;
     x0 := initial_weights;
     method := "SLSQP";
     bounds := repeat constraint_set (List.length mean_return);
     constraints := [budget] |}.

Definition min_portfolio_var (mean_return : Series asset)
    (covar : DataFrame) (constraint_set : R * R)
  : M (event asset) OptimizeResult :=
  let num_assets := List.length mean_return in
  initial_weights <- lift (equal_weights num_assets) ;;
  solve (min_vol_problem mean_return covar constraint_set initial_weights).

Definition portfolio_return (weights : list R) (mean_return : Series asset)
    (covar : DataFrame) : res R :=
  rbind (port_performance weights mean_return covar)
        (fun p => Ok (fst p)).

(** [lambda x: portfolio_return(x, mean_return, covar) - target_return] *)
Definition return_target (mean_return : Series asset) (covar : DataFrame)
    (target_return : R) (x : list R) : res R :=
  rbind (portfolio_return x mean_return covar)
        (fun r => Ok (r - target_return)%R).

(** The arguments that [efficient_frontier] hands to the solver. *)
Definition frontier_problem (mean_return : Series asset)
    (covar : DataFrame) (target_return : R) (constraint_set : R * R)
    (initial_weights : list R) : Problem :=
  {| objective := fun w => portfolio_var w mean_return covar;
     x0 := initial_weights;
     method := "SLSQP";
     bounds := repeat constraint_set (List.length mean_return);
     constraints :=
       [return_target mean_return covar target_return; budget] |}.

Definition efficient_frontier (mean_return : Series asset)
    (covar : DataFrame) (target_return : R) (constraint_set : R * R)
  : M (event asset) OptimizeResult :=
  let num_assets := List.length mean_return in
  initial_weights <- lift (equal_weights num_assets) ;;
  solve (frontier_problem mean_return covar target_return constraint_set
                          initial_weights).

(** The loop over [target_returns] that fills [ef_vols]. *)
Fixpoint frontier_loop (mean_return : Series asset) (covar : DataFrame)
    (constraint_set : R * R) (targets : list R)
  : M (event asset) (list float64) :=
  match targets with
  | [] => ret []
  | target :: rest =>
    ef_result <- efficient_frontier mean_return covar target constraint_set ;;
    vols <- frontier_loop mean_return covar constraint_set rest ;;
    ret ((if success ef_result then fun_ ef_result else NaN) :: vols)
  end.

(** [pd.DataFrame(weights, index=mean_return.index)]; the lengths agree
    wherever the code builds one. *)
Definition allocation_frame (weights : list R) (mean_return : Series asset)
  : list (asset * R) :=
  combine (map fst mean_return) weights.

Definition calculated_result (mean_return : Series asset)
    (covar : DataFrame) (risk_free_rate : R) (constraint_set : R * R)
  : M (event asset) (Result asset) :=
  max_sharpe_result <-
    max_sharpe_ratio mean_return covar risk_free_rate constraint_set ;;
  min_vol_result <- min_portfolio_var mean_return covar constraint_set ;;
  if negb (success max_sharpe_result) then
    raise (ValueError ("Max Sharpe optimization failed: "
                       ++ message max_sharpe_result))
  else if negb (success min_vol_result) then
    raise (ValueError ("Min volatility optimization failed: "
                       ++ message min_vol_result))
  else
    let optimal_weights := x max_sharpe_result in
    let minimal_weights := x min_vol_result in
    '(opt_return, opt_std) <-
      lift (port_performance optimal_weights mean_return covar) ;;
    '(minimal_return, minimal_std) <-
      lift (port_performance minimal_weights mean_return covar) ;;
    let optimal_allocation := allocation_frame optimal_weights mean_return in
    let minimal_allocation := allocation_frame minimal_weights mean_return in
    let target_returns := linspace minimal_return opt_return 20 in
    ef_vols <-
      frontier_loop mean_return covar constraint_set target_returns ;;
    ret {| opt_return := round2R (opt_return * 100);
           opt_std := round2 (fmul opt_std (Num 100));
           optimal_allocation := optimal_allocation;
           minimal_return := round2R (minimal_return * 100);
           minimal_std := round2 (fmul minimal_std (Num 100));
           minimal_allocation := minimal_allocation;
           ef_vols := ef_vols;
           target_returns := target_returns |}.

(** The "Efficient Frontier" trace of [ef_graph]. *)
Definition ef_curve (ef_vols : list float64) (target_returns : list R)
  : Scatter :=
  {| name := "Efficient Frontier";
     mode := "lines+markers";
     xs := map (fun vol => if negb (isnan vol)
                           then Some (round2 (fmul vol (Num 100)))
                           else None) ef_vols;
     ys := map (fun r => round2R (r * 100)) target_returns |}.

Definition ef_graph (mean_return : Series asset) (covar : DataFrame)
    (risk_free_rate : R) (constraint_set : R * R)
  : M (event asset) Figure :=
  r <- calculated_result mean_return covar risk_free_rate constraint_set ;;
  let max_sharpe_point :=
    {| name := "Maximum Sharpe Ratio"; mode := "markers";
       xs := [Some (opt_std r)]; ys := [opt_return r] |} in
  let min_vol_point :=
    {| name := "Minimum Volatility"; mode := "markers";
       xs := [Some (minimal_std r)]; ys := [minimal_return r] |} in
  ret [max_sharpe_point; min_vol_point;
       ef_curve (ef_vols r) (target_returns r)].

(** What one frontier solve leaves in [ef_vols]. *)
Definition recorded (ef_result : OptimizeResult) : float64 :=
  if success ef_result then fun_ ef_result else NaN.

(** The tuple that [calculated_result] returns, from the two named
    outcomes, their raw performances and the frontier volatilities. *)
Definition assemble (mu : Series asset) (ms mv : OptimizeResult)
    (rmax : R) (smax : float64) (rmin : R) (smin : float64)
    (vols : list float64) : Result asset :=
  {| opt_return := round2R (rmax * 100);
     opt_std := round2 (fmul smax (Num 100));
     optimal_allocation := allocation_frame (x ms) mu;
     minimal_return := round2R (rmin * 100);
     minimal_std := round2 (fmul smin (Num 100));
     minimal_allocation := allocation_frame (x mv) mu;
     ef_vols := vols;
     target_returns := linspace rmin rmax 20 |}.

End Core.

(** The points of a trace that plotly draws: those with a coordinate. *)
Definition plotted (s : Scatter) : list (float64 * R) :=
  flat_map (fun p => match fst p with
                     | Some vx => [(vx, snd p)]
                     | None => []
                     end)
           (combine (xs s) (ys s)).

End LoadData.

(* ------------------------------------------------------------------ *)
(** * app.py *)

Module App.
Import Np LoadData.

(** What the page shows after the script has run. *)
Inductive Screen (str : Type) : Type :=
| st_info (msg : string)
| st_error (msg : string)
| st_error_failed (exc : exn)   (* st.error(f"Optimization failed: {exc}") *)
| st_results (opt_return : R) (opt_std : float64)
             (min_return : R) (min_std : float64)
             (fig : Figure) (display_opt display_min : list (str * R)).
Arguments st_info {str} msg.
Arguments st_error {str} msg.
Arguments st_error_failed {str} exc.
Arguments st_results {str}.

Section Form.

(** Python strings are lists of characters.  The character type, the
    whitespace test of [str.strip] and the case mapping of [str.upper]
    are those of Unicode; nothing below depends on their tables. *)
Variable char : Type.
Variable char_eq_dec : forall a b : char, {a = b} + {a <> b}.
Variable comma : char.
Variable isspace : char -> bool.
Variable upper : list char -> list char.

Definition str : Type := list char.

Definition str_eq_dec : forall a b : str, {a = b} + {a <> b} :=
  list_eq_dec char_eq_dec.

(** [s.split(",")] *)
Fixpoint split (s : str) : list str :=
  match s with
  | [] => [[]]
  | c :: s' =>
    if char_eq_dec c comma then [] :: split s'
    else match split s' with
         | tok :: rest => (c :: tok) :: rest
         | [] => [[c]]
         end
  end.

(** [",".join(tokens)] *)
Fixpoint join (tokens : list str) : str :=
  match tokens with
  | [] => []
  | [tok] => tok
  | tok :: rest => tok ++ comma :: join rest
  end.

Fixpoint lstrip (s : str) : str :=
  match s with
  | [] => []
  | c :: s' => if isspace c then lstrip s' else s
  end.

Definition rstrip (s : str) : str := rev (lstrip (rev s)).

(** [s.strip()] *)
Definition strip (s : str) : str := rstrip (lstrip s).

(** Truth value of a string: it is not empty. *)
Definition truthy (s : str) : bool :=
  match s with [] => false | _ :: _ => true end.

(** A dictionary, as the list of its keys in insertion order. *)
Definition fresh (d : list str) (k : str) : bool :=
  if in_dec str_eq_dec k d then false else true.

(** [d[k] = None]: a key already present keeps its place. *)
Definition dict_add (d : list str) (k : str) : list str :=
  if fresh d k then d ++ [k] else d.

(** [list(dict.fromkeys(keys))] *)
Definition dict_fromkeys (keys : list str) : list str :=
  fold_left dict_add keys [].

Definition _parse_tickers (raw_value : str) : list str :=
  let tickers :=
    map (fun t => upper (strip t))
        (filter (fun t => truthy (strip t)) (split raw_value)) in
  dict_fromkeys tickers.

Variable minimize : Problem -> res OptimizeResult.
Variable stooq_statistics :
  list str -> Z -> Z -> res (option (Series str * DataFrame)).

(** [st.cache_data] only memoises [get_data]. *)
Definition _load_statistics (tickers : list str) (start_date end_date : Z)
  : M (event str) (Series str * DataFrame) :=
  get_data str stooq_statistics tickers start_date end_date.

(** [(frame["Allocation"] * 100).round(2)] *)
Definition display_allocation (frame : list (str * R)) : list (str * R) :=
  map (fun row => (fst row, round2R (snd row * 100)%R)) frame.

Local Open Scope py_scope.
Local Open Scope string_scope.

(** One run of the script on the values of the sidebar widgets; dates
    are day numbers. *)
Definition page (raw_tickers : str) (start_date end_date : Z)
    (risk_free_rate lower_bound upper_bound : R) (run_clicked : bool)
  : list (event str) -> Screen str * list (event str) :=
  fun log =>
  let tickers := _parse_tickers raw_tickers in
  if run_clicked then
    if (List.length tickers <? 2)%nat then
      (st_error "Please enter at least 2 tickers.", log)
    else if Rleb upper_bound lower_bound then
      (st_error "Lower bound must be smaller than upper bound.", log)
    else
      let constraint_set := (lower_bound, upper_bound) in
      let body :=
        '(mean_return, covar) <-
          _load_statistics tickers start_date end_date ;;
        r <- calculated_result str minimize mean_return covar
               risk_free_rate constraint_set ;;
        fig <- ef_graph str minimize mean_return covar
                 risk_free_rate constraint_set ;;
        ret (r, fig) in
      match body log with
      | (Raise exc, log') => (st_error_failed exc, log')
      | (Ok (r, fig), log') =>
        (st_results (opt_return r) (opt_std r)
                    (minimal_return r) (minimal_std r) fig
                    (display_allocation (optimal_allocation r))
                    (display_allocation (minimal_allocation r)),
         log')
      end
  else
    (st_info
       "Set your portfolio parameters in the sidebar, then click `Run Optimization`.",
     log).

End Form.

(** ** ASCII text *)

Definition isspace_ascii (c : ascii) : bool :=
  let n := nat_of_ascii c in
  ((9 <=? n) && (n <=? 13) || (28 <=? n) && (n <=? 32))%nat.

Definition upper_ascii_char (c : ascii) : ascii :=
  let n := nat_of_ascii c in
  if ((97 <=? n) && (n <=? 122))%nat then ascii_of_nat (n - 32) else c.

Definition upper_ascii (s : list ascii) : list ascii :=
  map upper_ascii_char s.

(** [_parse_tickers] on ASCII text. *)
Definition parse_ascii (raw_value : string) : list string :=
  map string_of_list_ascii
      (_parse_tickers ascii ascii_dec ","%char isspace_ascii upper_ascii
                      (list_ascii_of_string raw_value)).

End App.

(* ------------------------------------------------------------------ *)
(** * Solvers and inputs for the examples *)

Module Examples.
Import Np LoadData.
Local Open Scope string_scope.

(** A solver that finds its starting point optimal, as SLSQP does when
    the start is feasible and stationary. *)
Definition solver_at_start (p : Problem) : res OptimizeResult :=
  Ok {| x := x0 p;
        success := true;
        message := "Optimization terminated successfully";
        fun_ := match objective p (x0 p) with
                | Ok v => v
                | Raise _ => NaN
                end |}.

(** A solver that never converges. *)
Definition solver_no_convergence (p : Problem) : res OptimizeResult :=
  Ok {| x := x0 p;
        success := false;
        message := "Iteration limit reached";
        fun_ := NaN |}.

(** A solver that converges on the two named portfolios (one equality
    constraint) and on no frontier point (two). *)
Definition solver_named_only (p : Problem) : res OptimizeResult :=
  match constraints p with
  | [_] => solver_at_start p
  | _ => solver_no_convergence p
  end.

(** A solver for two assets that puts everything on the second asset
    when the objective is infinite at the zero portfolio (the Sharpe
    objective) and everything on the first asset otherwise. *)
Definition solver_corner (p : Problem) : res OptimizeResult :=
  Ok {| x := match objective p [0; 0] with
             | Ok PosInf => [0; 1]
             | _ => [1; 0]
             end;
        success := true;
        message := "Optimization terminated successfully";
        fun_ := Num 0 |}.

(** Two assets without expected return, uncorrelated. *)
Definition flat_returns : Series nat := [(1%nat, 0); (2%nat, 0)].

(** Two assets with daily mean returns 1 and 2, uncorrelated. *)
Definition two_returns : Series nat := [(1%nat, 1); (2%nat, 2)].

Definition identity2 : DataFrame := [[1; 0]; [0; 1]].

(** A data source for two tickers: no expected return, uncorrelated. *)
Definition flat_statistics (stocks : list (list ascii)) (_ _ : Z)
  : res (option (Series (list ascii) * DataFrame)) :=
  Ok (Some (map (fun s => (s, 0)) stocks, identity2)).

(** The page on ASCII text. *)
Definition page_ascii minimize stooq_statistics (raw_tickers : string) :=
  App.page ascii ascii_dec ","%char App.isspace_ascii App.upper_ascii
           minimize stooq_statistics (list_ascii_of_string raw_tickers).

End Examples.

(* ------------------------------------------------------------------ *)
(** * What the specification says, in its own words *)

Module Spec.
Import Np.

(** The sum of [f i] for [i] below [n]. *)
Definition sum_below (n : nat) (f : nat -> R) : R :=
  Np.sum (map f (seq 0 n)).

(** [mean_vector . weights], the inner product of two vectors of
    dimension [n]. *)
Definition inner (n : nat) (mu w : list R) : R :=
  sum_below n (fun i => nth i mu 0 * nth i w 0).

(** [weights^T . covariance . weights], the quadratic form of an
    [n] by [n] matrix. *)
Definition quadratic_form (n : nat) (w : list R) (sigma : list (list R)) : R :=
  sum_below n (fun i =>
    sum_below n (fun j => nth i w 0 * nth j (nth i sigma []) 0 * nth j w 0)).

(** The annualisation factor, trading periods per year. *)
Definition T : R := 252.

Definition annualizedReturn (n : nat) (mu w : list R) : R :=
  inner n mu w * T.

Definition annualizedVolatility (n : nat) (w : list R)
    (sigma : list (list R)) : R :=
  sqrt (quadratic_form n w sigma) * sqrt T.

(** A list in which every element keeps only its first occurrence. *)
Fixpoint first_occurrences {A} (eq_dec : forall a b : A, {a = b} + {a <> b})
    (l : list A) : list A :=
  match l with
  | [] => []
  | a :: l' => a :: remove eq_dec a (first_occurrences eq_dec l')
  end.

(** Strictly increasing, element after element. *)
Definition strictly_increasing (l : list R) : Prop :=
  forall i a b, nth_error l i = Some a -> nth_error l (S i) = Some b -> a < b.

(** [v] is [r] rounded to two decimals: a whole number of hundredths, at
    most half a hundredth away. *)
Definition rounded_to_2_decimals (r v : R) : Prop :=
  (exists k : Z, v = IZR k / 100) /\ Rabs (v - r) <= 1 / 200.

End Spec.

(* ------------------------------------------------------------------ *)
(** * Facts about the numpy operations *)

Module NpFacts.
Import Np Spec.

Lemma Rleb_true a b : Rleb a b = true <-> a <= b.
Proof. unfold Rleb; destruct (Rle_dec a b); split; intros; try easy. Qed.

Lemma Rleb_false a b : Rleb a b = false <-> b < a.
Proof.
  unfold Rleb; destruct (Rle_dec a b); split; intros; try easy; lra.
Qed.

Lemma Rltb_true a b : Rltb a b = true <-> a < b.
Proof. unfold Rltb; destruct (Rlt_dec a b); split; intros; try easy. Qed.

Lemma Rltb_false a b : Rltb a b = false <-> b <= a.
Proof.
  unfold Rltb; destruct (Rlt_dec a b); split; intros; try easy; lra.
Qed.

Lemma np_sqrt_nonneg r : 0 <= r -> np_sqrt r = Num (sqrt r).
Proof.
  intros H. unfold np_sqrt.
  destruct (Rltb r 0) eqn:E; [apply Rltb_true in E; lra | reflexivity].
Qed.

Lemma np_sqrt_neg r : r < 0 -> np_sqrt r = NaN.
Proof.
  intros H. unfold np_sqrt.
  destruct (Rltb r 0) eqn:E; [reflexivity | apply Rltb_false in E; lra].
Qed.

(** Closeness to zero is the absolute tolerance alone. *)
Lemma isclose_zero v :
  isclose v (Num 0) = true <-> exists s, v = Num s /\ Rabs s <= atol.
Proof.
  destruct v as [s| | |]; simpl.
  - rewrite Rleb_true, Rminus_0_r, Rabs_R0, Rmult_0_r, Rplus_0_r.
    split.
    + intros H; exists s; auto.
    + intros [s' [E H]]; injection E as ->; exact H.
  - split; [discriminate | intros [s [E _]]; discriminate].
  - split; [discriminate | intros [s [E _]]; discriminate].
  - split; [discriminate | intros [s [E _]]; discriminate].
Qed.

Lemma atol_pos : 0 < atol.
Proof. unfold atol; lra. Qed.

(** ** Sums and inner products *)

Lemma sum_app l1 l2 : Np.sum (l1 ++ l2) = Np.sum l1 + Np.sum l2.
Proof. induction l1 as [|a l1 IH]; simpl; [lra | rewrite IH; lra]. Qed.

Lemma sum_scal c l : c * Np.sum l = Np.sum (map (Rmult c) l).
Proof. induction l as [|a l IH]; simpl; [lra | rewrite <- IH; lra]. Qed.

Lemma sum_map_ext (f g : nat -> R) l :
  (forall i, In i l -> f i = g i) ->
  Np.sum (map f l) = Np.sum (map g l).
Proof.
  induction l as [|a l IH]; simpl; intros H; [reflexivity|].
  rewrite H by auto. rewrite IH by auto. reflexivity.
Qed.

Lemma sum_below_S n f :
  sum_below (S n) f = f O + sum_below n (fun i => f (S i)).
Proof.
  unfold sum_below. simpl. rewrite <- seq_shift, map_map. reflexivity.
Qed.

(** The inner product computed by numpy is the indexed sum. *)
Lemma dot_inner a : forall b n,
  List.length a = n -> List.length b = n -> dot a b = inner n a b.
Proof.
  induction a as [|x a IH]; intros [|y b] n Ha Hb; simpl in *; subst;
    try discriminate; try reflexivity.
  unfold inner. rewrite sum_below_S. simpl.
  unfold dot in *. simpl. f_equal.
  apply IH; [reflexivity | congruence].
Qed.

Lemma nth_matvec m v i :
  nth i (matvec m v) 0 = dot (nth i m []) v.
Proof.
  unfold matvec.
  change 0 with ((fun row => dot row v) []) at 1.
  apply map_nth.
Qed.

Lemma dot_matvec_quadratic n w sigma :
  List.length w = n -> List.length sigma = n ->
  Forall (fun row => List.length row = n) sigma ->
  dot w (matvec sigma w) = quadratic_form n w sigma.
Proof.
  intros Hw Hs Hrows.
  rewrite (dot_inner w (matvec sigma w) n Hw)
    by (unfold matvec; rewrite length_map; exact Hs).
  unfold inner, quadratic_form, sum_below.
  apply sum_map_ext. intros i Hi. apply in_seq in Hi.
  rewrite nth_matvec.
  assert (Hrow : List.length (nth i sigma []) = n).
  { rewrite Forall_forall in Hrows. apply Hrows, nth_In. lia. }
  rewrite (dot_inner _ w n Hrow Hw). unfold inner, sum_below.
  rewrite sum_scal, map_map.
  apply sum_map_ext. intros j _. lra.
Qed.

(** ** Rounding *)

Lemma rint_close y : Rabs (IZR (rint y) - y) <= 1 / 2.
Proof.
  unfold rint.
  pose proof (base_fp y) as [Hlo Hhi].
  assert (E : y = IZR (Int_part y) + frac_part y)
    by (unfold frac_part; lra).
  set (f := Int_part y) in *. set (d := frac_part y) in *.
  destruct (Rltb d (1 / 2)) eqn:E1.
  - apply Rltb_true in E1. apply Rabs_le. lra.
  - apply Rltb_false in E1.
    destruct (Rltb (1 / 2) d) eqn:E2.
    + apply Rltb_true in E2. rewrite plus_IZR. apply Rabs_le. simpl. lra.
    + apply Rltb_false in E2.
      destruct (Z.even f); [|rewrite plus_IZR; simpl];
        apply Rabs_le; lra.
Qed.

Lemma Rabs_le_bounds a b : Rabs a <= b -> - b <= a <= b.
Proof.
  unfold Rabs. destruct (Rcase_abs a); lra.
Qed.

Lemma round2R_rounded r : rounded_to_2_decimals r (round2R r).
Proof.
  unfold rounded_to_2_decimals, round2R. split.
  - eexists; reflexivity.
  - pose proof (Rabs_le_bounds _ _ (rint_close (r * 100))) as H.
    apply Rabs_le. lra.
Qed.

End NpFacts.

(* ------------------------------------------------------------------ *)
(** * The performance model and the objectives *)

Module Performance.
Import Np Spec NpFacts LoadData.

Section Facts.

Variable asset : Type.

Lemma shapes_match_true (w : list R) (mu : Series asset) (sigma : DataFrame)
    (n : nat) :
  List.length w = n -> List.length mu = n -> List.length sigma = n ->
  Forall (fun row => List.length row = n) sigma ->
  shapes_match asset w mu sigma = true.
Proof.
  intros Hw Hm Hs Hrows. unfold shapes_match.
  rewrite Hw, Hm, Hs, !Nat.eqb_refl. simpl.
  apply forallb_forall. intros row Hin.
  rewrite Forall_forall in Hrows. rewrite (Hrows row Hin).
  apply Nat.eqb_refl.
Qed.

Lemma shapes_match_inv (w : list R) (mu : Series asset) (sigma : DataFrame) :
  shapes_match asset w mu sigma = true ->
  List.length mu = List.length w /\ List.length sigma = List.length w
  /\ Forall (fun row => List.length row = List.length w) sigma.
Proof.
  unfold shapes_match. intros H.
  apply andb_prop in H as [H Hrows]. apply andb_prop in H as [Hm Hs].
  apply Nat.eqb_eq in Hm, Hs. repeat split; auto.
  apply Forall_forall. intros row Hin.
  rewrite forallb_forall in Hrows. apply Nat.eqb_eq, Hrows, Hin.
Qed.

(** The code is total on matching shapes and raises on any other. *)
Lemma port_performance_raises (w : list R) (mu : Series asset)
    (sigma : DataFrame) :
  shapes_match asset w mu sigma = false ->
  port_performance asset w mu sigma = Raise ShapeMismatch.
Proof. intros H. unfold port_performance. rewrite H. reflexivity. Qed.

Lemma port_performance_ok_inv (w : list R) (mu : Series asset)
    (sigma : DataFrame) p :
  port_performance asset w mu sigma = Ok p ->
  shapes_match asset w mu sigma = true.
Proof.
  unfold port_performance.
  destruct (shapes_match asset w mu sigma); [reflexivity | discriminate].
Qed.

(** On matching shapes the code returns, with these two values. *)
Lemma port_performance_ok (w : list R) (mu : Series asset)
    (sigma : DataFrame) (n : nat) :
  List.length w = n -> List.length mu = n -> List.length sigma = n ->
  Forall (fun row => List.length row = n) sigma ->
  port_performance asset w mu sigma =
    Ok (Np.sum (Np.mul (map snd mu) w) * TRADING_DAYS,
        fmul (np_sqrt (dot w (matvec sigma w))) (np_sqrt TRADING_DAYS)).
Proof.
  intros Hw Hm Hs Hrows. unfold port_performance.
  rewrite (shapes_match_true w mu sigma n Hw Hm Hs Hrows). reflexivity.
Qed.

(** C1.  For weights [w], mean returns [mu] and covariance [sigma] of one
    dimension [n], [port_performance] returns the annualized return
    [(mu . w) * 252] and the annualized volatility
    [sqrt(w^T sigma w) * sqrt(252)], the square roots being numpy's; on a
    quadratic form that is not negative, as that of every covariance
    matrix, these are the real numbers [annualizedReturn] and
    [annualizedVolatility] of the specification. *)
Theorem port_performance_formula (w : list R) (mu : Series asset)
    (sigma : DataFrame) (n : nat) :
  List.length w = n -> List.length mu = n -> List.length sigma = n ->
  Forall (fun row => List.length row = n) sigma ->
  port_performance asset w mu sigma =
    Ok (annualizedReturn n (map snd mu) w,
        fmul (np_sqrt (quadratic_form n w sigma)) (np_sqrt 252))
  /\ (0 <= quadratic_form n w sigma ->
      port_performance asset w mu sigma =
        Ok (annualizedReturn n (map snd mu) w,
            Num (annualizedVolatility n w sigma))).
Proof.
  intros Hw Hm Hs Hrows.
  assert (E : port_performance asset w mu sigma =
    Ok (annualizedReturn n (map snd mu) w,
        fmul (np_sqrt (quadratic_form n w sigma)) (np_sqrt 252))).
  { rewrite (port_performance_ok w mu sigma n Hw Hm Hs Hrows).
    rewrite (dot_matvec_quadratic n w sigma Hw Hs Hrows).
    unfold annualizedReturn, T, TRADING_DAYS.
    rewrite <- (dot_inner (map snd mu) w n)
      by (rewrite ?length_map; assumption).
    reflexivity. }
  split; [exact E|].
  intros Hq. rewrite E.
  rewrite (np_sqrt_nonneg _ Hq), (np_sqrt_nonneg 252) by lra.
  reflexivity.
Qed.

(** C2.  With [(ret, std)] the performance of the weights:
    the volatility is numerically zero exactly when it is a number of
    absolute value at most [1e-08]; then [negative_sharpe] returns
    positive infinity; otherwise it returns [-(ret - rf) / std], the
    denominator of that division is never zero, and on a finite
    volatility [s] the value is the real number [-((ret - rf) / s)]. *)
Theorem negative_sharpe_cases (w : list R) (mu : Series asset)
    (sigma : DataFrame) (rf ret : R) (std : float64) :
  port_performance asset w mu sigma = Ok (ret, std) ->
  (isclose std (Num 0) = true <-> exists s, std = Num s /\ Rabs s <= atol)
  /\ (isclose std (Num 0) = true ->
      negative_sharpe asset w mu sigma rf = Ok PosInf)
  /\ (isclose std (Num 0) = false ->
      std <> Num 0
      /\ negative_sharpe asset w mu sigma rf =
           Ok (fneg (fdiv (Num (ret - rf)) std))
      /\ forall s, std = Num s ->
           s <> 0
           /\ negative_sharpe asset w mu sigma rf =
                Ok (Num (- ((ret - rf) / s)))).
Proof.
  intros Hperf. split; [apply isclose_zero|]. split.
  - intros Hc. unfold negative_sharpe. rewrite Hperf. simpl.
    rewrite Hc. reflexivity.
  - intros Hc.
    assert (Hnz : forall s, std = Num s -> s <> 0).
    { intros s -> Hs. subst s.
      assert (isclose (Num 0) (Num 0) = true) as Ht.
      { apply isclose_zero. exists 0. split; [reflexivity|].
        rewrite Rabs_R0. pose proof atol_pos. lra. }
      congruence. }
    assert (E : negative_sharpe asset w mu sigma rf =
                Ok (fneg (fdiv (Num (ret - rf)) std))).
    { unfold negative_sharpe. rewrite Hperf. simpl. rewrite Hc.
      reflexivity. }
    split; [|split].
    + intros Hz. apply (Hnz 0 Hz). reflexivity.
    + exact E.
    + intros s Hs. split; [apply Hnz, Hs|].
      rewrite E. subst std. simpl.
      destruct (Req_dec_T s 0) as [Hz|_]; [|reflexivity].
      exfalso. apply (Hnz s eq_refl Hz).
Qed.

End Facts.

(** A two-asset input: equal weights, an identity covariance. *)
Lemma port_performance_formula_witness :
  port_performance nat [1 / 2; 1 / 2] [(1%nat, 1); (2%nat, 3)]
                   [[1; 0]; [0; 1]] =
    Ok (annualizedReturn 2 [1; 3] [1 / 2; 1 / 2],
        fmul (np_sqrt (quadratic_form 2 [1 / 2; 1 / 2] [[1; 0]; [0; 1]]))
             (np_sqrt 252)).
Proof.
  apply (port_performance_formula nat [1 / 2; 1 / 2]
           [(1%nat, 1); (2%nat, 3)] [[1; 0]; [0; 1]] 2);
    try reflexivity.
  repeat constructor.
Defined.

(** The zero portfolio has zero volatility: the objective is [+inf]. *)
Lemma negative_sharpe_cases_witness :
  negative_sharpe nat [0] [(1%nat, 1)] [[1]] 0 = Ok PosInf.
Proof.
  refine (proj1 (proj2 (negative_sharpe_cases nat [0] [(1%nat, 1)] [[1]] 0
                          _ _ eq_refl)) _).
  apply isclose_zero. exists 0. split.
  - simpl. unfold dot. simpl.
    replace (0 * (1 * 0 + 0) + 0) with 0 by lra.
    rewrite (np_sqrt_nonneg 0), (np_sqrt_nonneg TRADING_DAYS), sqrt_0
      by (unfold TRADING_DAYS; lra).
    simpl. f_equal. lra.
  - rewrite Rabs_R0. pose proof atol_pos. lra.
Defined.

End Performance.

(* ------------------------------------------------------------------ *)
(** * The runs of [calculated_result] *)

Module Pipeline.
Import Np Spec NpFacts LoadData Performance.

Section Runs.

Variable asset : Type.
Variable minimize : Problem -> res OptimizeResult.

Lemma equal_weights_ok n :
  n <> O -> equal_weights n = Ok (repeat (1 / INR n)%R n).
Proof. destruct n; [congruence | reflexivity]. Qed.

Lemma equal_weights_inv n w0 :
  equal_weights n = Ok w0 -> n <> O /\ w0 = repeat (1 / INR n)%R n.
Proof. destruct n; simpl; intros H; inversion H; split; congruence. Qed.

Lemma efficient_frontier_run mu sigma t cs w0 (log : list (event asset)) :
  equal_weights (List.length mu) = Ok w0 ->
  efficient_frontier asset minimize mu sigma t cs log =
    (minimize (frontier_problem asset mu sigma t cs w0),
     (log ++ [Solve (frontier_problem asset mu sigma t cs w0)])%list).
Proof.
  intros Hw. unfold efficient_frontier, solve, bind, lift, emit.
  rewrite Hw. reflexivity.
Qed.

(** The sweep solves one problem per target, in the order of the
    targets, and records one entry per solve. *)
Lemma frontier_loop_ok mu sigma cs w0 :
  equal_weights (List.length mu) = Ok w0 ->
  forall targets (log log' : list (event asset)) vols,
  frontier_loop asset minimize mu sigma cs targets log = (Ok vols, log') ->
  log' = (log ++ map (fun t => Solve (frontier_problem asset mu sigma t cs w0))
                     targets)%list
  /\ Forall2 (fun t v => exists ef_result,
                minimize (frontier_problem asset mu sigma t cs w0)
                  = Ok ef_result
                /\ v = recorded ef_result) targets vols.
Proof.
  intros Hw. induction targets as [|t rest IH]; intros log log' vols H.
  - simpl in H. unfold ret in H. inversion H; subst.
    rewrite app_nil_r. split; constructor.
  - simpl in H. unfold bind at 1 in H.
    rewrite (efficient_frontier_run mu sigma t cs w0 log Hw) in H.
    destruct (minimize (frontier_problem asset mu sigma t cs w0))
      as [er|e] eqn:Em; [|discriminate].
    unfold bind in H.
    destruct (frontier_loop asset minimize mu sigma cs rest
                (log ++ [Solve (frontier_problem asset mu sigma t cs w0)]))
      as [[vs|e] l2] eqn:El; [|discriminate].
    unfold ret in H. inversion H; subst.
    destruct (IH _ _ _ El) as [Hlog Hall].
    split.
    + rewrite Hlog. simpl. rewrite <- app_assoc. reflexivity.
    + constructor; [exists er; split; [exact Em | reflexivity] | exact Hall].
Qed.

(** The sweep returns whenever the solver returns on every target. *)
Lemma frontier_loop_total mu sigma cs w0 :
  equal_weights (List.length mu) = Ok w0 ->
  forall targets (log : list (event asset)),
  (forall t, In t targets ->
     exists er, minimize (frontier_problem asset mu sigma t cs w0) = Ok er) ->
  exists vols log',
    frontier_loop asset minimize mu sigma cs targets log = (Ok vols, log').
Proof.
  intros Hw. induction targets as [|t rest IH]; intros log Hall.
  - simpl. unfold ret. eauto.
  - simpl. unfold bind at 1.
    rewrite (efficient_frontier_run mu sigma t cs w0 log Hw).
    destruct (Hall t (or_introl eq_refl)) as [er Her]. rewrite Her.
    destruct (IH (log ++ [Solve (frontier_problem asset mu sigma t cs w0)])%list
                 (fun t' Hin => Hall t' (or_intror Hin)))
      as [vs [l2 Hrun]].
    unfold bind. rewrite Hrun. unfold ret. eauto.
Qed.

(** [calculated_result], step by step. *)
Lemma calculated_result_run mu sigma rf cs w0 (log : list (event asset)) :
  equal_weights (List.length mu) = Ok w0 ->
  let pms := max_sharpe_problem asset mu sigma rf cs w0 in
  let pmv := min_vol_problem asset mu sigma cs w0 in
  calculated_result asset minimize mu sigma rf cs log =
    match minimize pms with
    | Raise e => (Raise e, (log ++ [Solve pms])%list)
    | Ok ms =>
      match minimize pmv with
      | Raise e => (Raise e, (log ++ [Solve pms; Solve pmv])%list)
      | Ok mv =>
        let log2 := (log ++ [Solve pms; Solve pmv])%list in
        if negb (success ms) then
          (Raise (ValueError ("Max Sharpe optimization failed: "
                              ++ message ms)%string), log2)
        else if negb (success mv) then
          (Raise (ValueError ("Min volatility optimization failed: "
                              ++ message mv)%string), log2)
        else
          match port_performance asset (x ms) mu sigma with
          | Raise e => (Raise e, log2)
          | Ok (rmax, smax) =>
            match port_performance asset (x mv) mu sigma with
            | Raise e => (Raise e, log2)
            | Ok (rmin, smin) =>
              match frontier_loop asset minimize mu sigma cs
                      (linspace rmin rmax 20) log2 with
              | (Raise e, log3) => (Raise e, log3)
              | (Ok vols, log3) =>
                (Ok (assemble asset mu ms mv rmax smax rmin smin vols), log3)
              end
            end
          end
      end
    end.
Proof.
  intros Hw pms pmv.
  unfold calculated_result, max_sharpe_ratio, min_portfolio_var, solve.
  unfold bind, lift, emit, raise. rewrite Hw.
  fold pms. fold pmv.
  destruct (minimize pms) as [ms|e]; [|reflexivity].
  destruct (minimize pmv) as [mv|e];
    [|rewrite <- app_assoc; reflexivity].
  rewrite <- app_assoc. simpl app.
  destruct (success ms); cbn [negb]; [|reflexivity].
  destruct (success mv); cbn [negb]; [|reflexivity].
  destruct (port_performance asset (x ms) mu sigma) as [[rmax smax]|e];
    [|reflexivity].
  destruct (port_performance asset (x mv) mu sigma) as [[rmin smin]|e];
    [|reflexivity].
  destruct (frontier_loop asset minimize mu sigma cs (linspace rmin rmax 20)
              (log ++ [Solve pms; Solve pmv])) as [[vols|e] log3];
    reflexivity.
Qed.

(** The sweep only appends to the log, also when it raises. *)
Lemma frontier_loop_log mu sigma cs w0 :
  equal_weights (List.length mu) = Ok w0 ->
  forall targets (log log' : list (event asset)) r,
  frontier_loop asset minimize mu sigma cs targets log = (r, log') ->
  exists suffix, log' = (log ++ suffix)%list.
Proof.
  intros Hw. induction targets as [|t rest IH]; intros log log' r H.
  - simpl in H. unfold ret in H. inversion H; subst.
    exists []. rewrite app_nil_r. reflexivity.
  - simpl in H. unfold bind at 1 in H.
    rewrite (efficient_frontier_run mu sigma t cs w0 log Hw) in H.
    destruct (minimize (frontier_problem asset mu sigma t cs w0))
      as [er|e] eqn:Em.
    + unfold bind in H.
      destruct (frontier_loop asset minimize mu sigma cs rest
                  (log ++ [Solve (frontier_problem asset mu sigma t cs w0)]))
        as [[vs|e] l2] eqn:El;
        destruct (IH _ _ _ El) as [suffix Hs];
        unfold ret in H; inversion H; subst;
        eexists; rewrite <- app_assoc; reflexivity.
    + inversion H; subst. eexists. reflexivity.
Qed.

(** Once the Maximum Sharpe solve has returned, the log of a run starts
    with the two named solver calls, whatever happens next. *)
Lemma calculated_result_log mu sigma rf cs w0 ms
    (log log' : list (event asset)) r :
  equal_weights (List.length mu) = Ok w0 ->
  minimize (max_sharpe_problem asset mu sigma rf cs w0) = Ok ms ->
  calculated_result asset minimize mu sigma rf cs log = (r, log') ->
  exists suffix,
    log' = (log ++ [Solve (max_sharpe_problem asset mu sigma rf cs w0);
                    Solve (min_vol_problem asset mu sigma cs w0)]
                ++ suffix)%list.
Proof.
  intros Hw Hms H.
  rewrite (calculated_result_run mu sigma rf cs w0 log Hw) in H.
  cbv zeta in H. rewrite Hms in H.
  destruct (minimize (min_vol_problem asset mu sigma cs w0)) as [mv|e].
  2:{ inversion H; subst. exists []. reflexivity. }
  destruct (success ms); cbn [negb] in H.
  2:{ inversion H; subst. exists []. reflexivity. }
  destruct (success mv); cbn [negb] in H.
  2:{ inversion H; subst. exists []. reflexivity. }
  destruct (port_performance asset (x ms) mu sigma) as [[rmax smax]|e].
  2:{ inversion H; subst. exists []. reflexivity. }
  destruct (port_performance asset (x mv) mu sigma) as [[rmin smin]|e].
  2:{ inversion H; subst. exists []. reflexivity. }
  destruct (frontier_loop asset minimize mu sigma cs (linspace rmin rmax 20) _)
    as [r3 log3] eqn:Efl.
  destruct (frontier_loop_log mu sigma cs w0 Hw _ _ _ _ Efl) as [suffix Hs].
  exists suffix.
  destruct r3; inversion H; subst; rewrite <- app_assoc; reflexivity.
Qed.

(** With no asset, the first division already raises. *)
Lemma calculated_result_no_asset sigma rf cs (log : list (event asset)) :
  calculated_result asset minimize [] sigma rf cs log
  = (Raise ZeroDivisionError, log).
Proof. reflexivity. Qed.

(** Every successful run has this shape. *)
Lemma calculated_result_ok_inv mu sigma rf cs (log log' : list (event asset)) out :
  calculated_result asset minimize mu sigma rf cs log = (Ok out, log') ->
  exists w0 ms mv rmax smax rmin smin vols,
    equal_weights (List.length mu) = Ok w0
    /\ minimize (max_sharpe_problem asset mu sigma rf cs w0) = Ok ms
    /\ minimize (min_vol_problem asset mu sigma cs w0) = Ok mv
    /\ success ms = true /\ success mv = true
    /\ port_performance asset (x ms) mu sigma = Ok (rmax, smax)
    /\ port_performance asset (x mv) mu sigma = Ok (rmin, smin)
    /\ frontier_loop asset minimize mu sigma cs (linspace rmin rmax 20)
         (log ++ [Solve (max_sharpe_problem asset mu sigma rf cs w0);
                  Solve (min_vol_problem asset mu sigma cs w0)])
       = (Ok vols, log')
    /\ out = assemble asset mu ms mv rmax smax rmin smin vols.
Proof.
  intros H.
  destruct (equal_weights (List.length mu)) as [w0|e] eqn:Hw.
  2:{ destruct mu; [|discriminate].
      rewrite calculated_result_no_asset in H. discriminate. }
  rewrite (calculated_result_run mu sigma rf cs w0 log Hw) in H.
  cbv zeta in H.
  destruct (minimize (max_sharpe_problem asset mu sigma rf cs w0))
    as [ms|e] eqn:Ems; [|discriminate].
  destruct (minimize (min_vol_problem asset mu sigma cs w0))
    as [mv|e] eqn:Emv; [|discriminate].
  destruct (success ms) eqn:Sms; cbn [negb] in H; [|discriminate].
  destruct (success mv) eqn:Smv; cbn [negb] in H; [|discriminate].
  destruct (port_performance asset (x ms) mu sigma)
    as [[rmax smax]|e] eqn:Pms; [|discriminate].
  destruct (port_performance asset (x mv) mu sigma)
    as [[rmin smin]|e] eqn:Pmv; [|discriminate].
  destruct (frontier_loop asset minimize mu sigma cs (linspace rmin rmax 20) _)
    as [[vols|e] log3] eqn:Efl; [|discriminate].
  inversion H; subst.
  exists w0, ms, mv, rmax, smax, rmin, smin, vols.
  repeat split; auto.
Qed.

End Runs.

End Pipeline.

(* ------------------------------------------------------------------ *)
(** * The sampling grid *)

Module Grid.
Import Np Spec NpFacts.

Lemma removelast_map {A B} (f : A -> B) l :
  removelast (map f l) = map f (removelast l).
Proof.
  induction l as [|a [|b l] IH]; simpl; try reflexivity.
  simpl in IH. rewrite IH. reflexivity.
Qed.

(** From two samples on, the grid is the affine ramp followed by the
    stop value. *)
Lemma linspace_unfold a b n :
  linspace a b (S (S n)) =
  (map (fun i => INR i * ((b - a) / INR (S n)) + a) (seq 0 (S n)) ++ [b])%list.
Proof.
  unfold linspace.
  replace (1 <? S (S n))%nat with true by (symmetry; apply Nat.ltb_lt; lia).
  replace (S (S n) - 1)%nat with (S n) by lia.
  rewrite removelast_map. f_equal.
  rewrite (seq_S (S n) 0), removelast_last. reflexivity.
Qed.

Lemma linspace_length a b n : List.length (linspace a b n) = n.
Proof.
  destruct n as [|[|n]]; try reflexivity.
  rewrite linspace_unfold, length_app, length_map, length_seq. simpl. lia.
Qed.

(** Every sample, the last one included, lies on the ramp. *)
Lemma linspace_nth_error a b n i :
  (i < S (S n))%nat ->
  nth_error (linspace a b (S (S n))) i
  = Some (a + INR i * ((b - a) / INR (S n))).
Proof.
  intros Hi. rewrite linspace_unfold.
  assert (Hn : INR (S n) <> 0) by (apply not_0_INR; lia).
  destruct (Nat.eq_dec i (S n)) as [->|Hne].
  - rewrite nth_error_app2 by (rewrite length_map, length_seq; lia).
    rewrite length_map, length_seq, Nat.sub_diag. simpl nth_error.
    f_equal. field. exact Hn.
  - rewrite nth_error_app1 by (rewrite length_map, length_seq; lia).
    rewrite nth_error_map, nth_error_seq.
    replace (i <? S n)%nat with true by (symmetry; apply Nat.ltb_lt; lia).
    simpl. f_equal. lra.
Qed.

Lemma linspace_first a b n : nth_error (linspace a b (S (S n))) 0 = Some a.
Proof.
  rewrite linspace_nth_error by lia. simpl. f_equal. lra.
Qed.

Lemma linspace_last a b n :
  nth_error (linspace a b (S (S n))) (S n) = Some b.
Proof.
  rewrite linspace_nth_error by lia. f_equal. field.
  apply not_0_INR; lia.
Qed.

Lemma linspace_constant a n : linspace a a (S (S n)) = repeat a (S (S n)).
Proof.
  apply nth_error_ext. intros i.
  destruct (Nat.lt_ge_cases i (S (S n))) as [Hi|Hi].
  - rewrite linspace_nth_error by exact Hi.
    rewrite nth_error_repeat by exact Hi. f_equal.
    unfold Rdiv. rewrite Rminus_diag. lra.
  - transitivity (@None R).
    + apply nth_error_None. rewrite linspace_length. exact Hi.
    + symmetry. apply nth_error_None. rewrite repeat_length. exact Hi.
Qed.

(** The grid climbs exactly when its stop lies above its start. *)
Lemma linspace_increasing a b n :
  strictly_increasing (linspace a b (S (S n))) <-> a < b.
Proof.
  assert (Hn : 0 < INR (S n)) by (apply lt_0_INR; lia).
  split.
  - intros H.
    specialize (H O a (a + INR 1 * ((b - a) / INR (S n)))).
    rewrite !linspace_nth_error in H by lia.
    simpl INR in H.
    assert (Hlt : a + 0 * ((b - a) / INR (S n))
                  < a + 1 * ((b - a) / INR (S n))).
    { assert (E : a + 0 * ((b - a) / INR (S n)) = a) by lra.
      rewrite E at 1.
      apply H; [f_equal; lra | reflexivity]. }
    assert (Hq : 0 < (b - a) / INR (S n)) by lra.
    assert (Hmul : 0 < (b - a) / INR (S n) * INR (S n))
      by (apply Rmult_lt_0_compat; assumption).
    unfold Rdiv in Hmul. rewrite Rmult_assoc, Rinv_l in Hmul by lra. lra.
  - intros Hab i u v Hu Hv.
    assert (Hi : (S i < S (S n))%nat).
    { rewrite <- (linspace_length a b (S (S n))).
      apply nth_error_Some. rewrite Hv. discriminate. }
    rewrite linspace_nth_error in Hu by lia.
    rewrite linspace_nth_error in Hv by lia.
    assert (Eu : u = a + INR i * ((b - a) / INR (S n))) by congruence.
    assert (Ev : v = a + INR (S i) * ((b - a) / INR (S n))) by congruence.
    assert (Hq : 0 < (b - a) / INR (S n))
      by (apply Rdiv_lt_0_compat; lra).
    rewrite Eu, Ev, (S_INR i). lra.
Qed.

End Grid.

(* ------------------------------------------------------------------ *)
(** * Named portfolios: failure and independence *)

Module Named.
Import Np Spec NpFacts LoadData Performance Pipeline Grid Examples.

Section Facts.

Variable asset : Type.
Variable minimize : Problem -> res OptimizeResult.

(** [calculated_result] returns as soon as the solver returns converged
    named portfolios of the right shape and returns on every target. *)
Lemma calculated_result_total mu sigma rf cs (log : list (event asset))
    w0 ms mv rmax smax rmin smin :
  equal_weights (List.length mu) = Ok w0 ->
  minimize (max_sharpe_problem asset mu sigma rf cs w0) = Ok ms ->
  minimize (min_vol_problem asset mu sigma cs w0) = Ok mv ->
  success ms = true -> success mv = true ->
  port_performance asset (x ms) mu sigma = Ok (rmax, smax) ->
  port_performance asset (x mv) mu sigma = Ok (rmin, smin) ->
  (forall t, In t (linspace rmin rmax 20) ->
     exists er, minimize (frontier_problem asset mu sigma t cs w0) = Ok er) ->
  exists vols log',
    calculated_result asset minimize mu sigma rf cs log
    = (Ok (assemble asset mu ms mv rmax smax rmin smin vols), log').
Proof.
  intros Hw Hms Hmv Sms Smv Pms Pmv Hall.
  rewrite (calculated_result_run asset minimize mu sigma rf cs w0 log Hw).
  cbv zeta. rewrite Hms, Hmv, Sms, Smv. cbn [negb]. rewrite Pms, Pmv.
  destruct (frontier_loop_total asset minimize mu sigma cs w0 Hw
              (linspace rmin rmax 20)
              (log ++ [Solve (max_sharpe_problem asset mu sigma rf cs w0);
                       Solve (min_vol_problem asset mu sigma cs w0)])%list
              Hall) as [vols [log' Hrun]].
  rewrite Hrun. eauto.
Qed.

(** C3.  When both named solves return an outcome and one of them did
    not converge, [calculated_result] raises one [ValueError] whose text
    ends in the diagnostic of the failed solve (that of Maximum Sharpe
    when both failed), returns nothing, and has called the solver for
    the two named portfolios only: no frontier point was solved. *)
Theorem calculated_result_all_or_nothing mu sigma rf cs
    (log : list (event asset)) w0 ms mv :
  equal_weights (List.length mu) = Ok w0 ->
  minimize (max_sharpe_problem asset mu sigma rf cs w0) = Ok ms ->
  minimize (min_vol_problem asset mu sigma cs w0) = Ok mv ->
  success ms = false \/ success mv = false ->
  calculated_result asset minimize mu sigma rf cs log =
    (Raise (ValueError
              (if success ms
               then ("Min volatility optimization failed: " ++ message mv)
               else ("Max Sharpe optimization failed: " ++ message ms))%string),
     (log ++ [Solve (max_sharpe_problem asset mu sigma rf cs w0);
              Solve (min_vol_problem asset mu sigma cs w0)])%list).
Proof.
  intros Hw Hms Hmv Hfail.
  rewrite (calculated_result_run asset minimize mu sigma rf cs w0 log Hw).
  cbv zeta. rewrite Hms, Hmv.
  destruct (success ms); cbn [negb]; [|reflexivity].
  destruct Hfail as [Hf|Hf]; [discriminate|].
  rewrite Hf. reflexivity.
Qed.

(** The second new entry of such a log. *)
Lemma second_call {E} (log suffix : list E) (e1 e2 : E) :
  nth_error (log ++ [e1; e2] ++ suffix)%list (List.length log + 1) = Some e2.
Proof.
  rewrite nth_error_app2 by lia.
  replace (List.length log + 1 - List.length log)%nat with 1%nat by lia.
  reflexivity.
Qed.

(** C8.  Take two runs of [calculated_result] on the same statistics and
    bounds with risk-free rates [rf1] and [rf2], in each of which the
    Maximum Sharpe solve returns an outcome.  The second solver call of
    both runs is the same Minimum Volatility problem [pmv], which does
    not mention the risk-free rate, so the solver, a function of the
    problem, gives one outcome for both; and when both runs return,
    their Minimum Volatility return, volatility and allocation are
    equal and come from that one converged outcome. *)
Theorem min_vol_ignores_risk_free_rate mu sigma cs rf1 rf2
    (log1 log2 : list (event asset)) w0 ms1 ms2 :
  equal_weights (List.length mu) = Ok w0 ->
  minimize (max_sharpe_problem asset mu sigma rf1 cs w0) = Ok ms1 ->
  minimize (max_sharpe_problem asset mu sigma rf2 cs w0) = Ok ms2 ->
  let pmv := min_vol_problem asset mu sigma cs w0 in
  let run1 := calculated_result asset minimize mu sigma rf1 cs log1 in
  let run2 := calculated_result asset minimize mu sigma rf2 cs log2 in
  nth_error (snd run1) (List.length log1 + 1) = Some (Solve pmv)
  /\ nth_error (snd run2) (List.length log2 + 1) = Some (Solve pmv)
  /\ forall out1 out2,
       fst run1 = Ok out1 -> fst run2 = Ok out2 ->
       minimal_return out1 = minimal_return out2
       /\ minimal_std out1 = minimal_std out2
       /\ minimal_allocation out1 = minimal_allocation out2
       /\ exists mv rmin smin,
            minimize pmv = Ok mv /\ success mv = true
            /\ port_performance asset (x mv) mu sigma = Ok (rmin, smin)
            /\ minimal_allocation out1 = allocation_frame asset (x mv) mu
            /\ minimal_return out1 = round2R (rmin * 100)
            /\ minimal_std out1 = round2 (fmul smin (Num 100)).
Proof.
  intros Hw Hms1 Hms2 pmv run1 run2.
  destruct run1 as [r1 l1] eqn:E1. destruct run2 as [r2 l2] eqn:E2.
  subst run1 run2. cbn [fst snd].
  destruct (calculated_result_log asset minimize _ _ _ _ _ _ _ _ _ Hw Hms1 E1)
    as [s1 ->].
  destruct (calculated_result_log asset minimize _ _ _ _ _ _ _ _ _ Hw Hms2 E2)
    as [s2 ->].
  split; [apply second_call|]. split; [apply second_call|].
  intros out1 out2 -> ->.
  destruct (calculated_result_ok_inv asset minimize _ _ _ _ _ _ _ E1)
    as (w0a & ms1' & mv1 & rmax1 & smax1 & rmin1 & smin1 & vols1
        & Hw1 & _ & Hmv1 & _ & Smv1 & _ & Pmv1 & _ & ->).
  destruct (calculated_result_ok_inv asset minimize _ _ _ _ _ _ _ E2)
    as (w0b & ms2' & mv2 & rmax2 & smax2 & rmin2 & smin2 & vols2
        & Hw2 & _ & Hmv2 & _ & Smv2 & _ & Pmv2 & _ & ->).
  assert (w0a = w0) by congruence. subst w0a.
  assert (w0b = w0) by congruence. subst w0b.
  assert (mv2 = mv1) by congruence. subst mv2.
  assert (E : (rmin2, smin2) = (rmin1, smin1)) by congruence.
  injection E as -> ->.
  cbn [minimal_return minimal_std minimal_allocation assemble].
  repeat split.
  exists mv1, rmin1, smin1. repeat split; assumption.
Qed.

End Facts.

(** Neither named solve converges: the error names Maximum Sharpe. *)
Lemma calculated_result_all_or_nothing_witness :
  calculated_result nat solver_no_convergence flat_returns identity2
                    0 (0, 1) [] =
    (Raise (ValueError
              "Max Sharpe optimization failed: Iteration limit reached"),
     [Solve (max_sharpe_problem nat flat_returns identity2 0 (0, 1)
                                [1 / INR 2; 1 / INR 2]);
      Solve (min_vol_problem nat flat_returns identity2 (0, 1)
                             [1 / INR 2; 1 / INR 2])]).
Proof.
  apply (calculated_result_all_or_nothing nat solver_no_convergence
           flat_returns identity2 0 (0, 1) [] [1 / INR 2; 1 / INR 2]
           _ _ eq_refl eq_refl eq_refl).
  left. reflexivity.
Defined.

(** The solver that stays at the start returns on every input of
    matching shape. *)
Lemma solver_at_start_runs rf :
  exists vols log',
    calculated_result nat solver_at_start flat_returns identity2
                      rf (0, 1) [] =
    (Ok (assemble nat flat_returns
           {| x := [1 / INR 2; 1 / INR 2]; success := true;
              message := "Optimization terminated successfully";
              fun_ := match negative_sharpe nat [1 / INR 2; 1 / INR 2]
                              flat_returns identity2 rf with
                      | Ok v => v
                      | Raise _ => NaN
                      end |}
           {| x := [1 / INR 2; 1 / INR 2]; success := true;
              message := "Optimization terminated successfully";
              fun_ := match portfolio_var nat [1 / INR 2; 1 / INR 2]
                              flat_returns identity2 with
                      | Ok v => v
                      | Raise _ => NaN
                      end |}
           (Np.sum (Np.mul [0; 0] [1 / INR 2; 1 / INR 2]) * TRADING_DAYS)
           (fmul (np_sqrt (dot [1 / INR 2; 1 / INR 2]
                               (matvec identity2 [1 / INR 2; 1 / INR 2])))
                 (np_sqrt TRADING_DAYS))
           (Np.sum (Np.mul [0; 0] [1 / INR 2; 1 / INR 2]) * TRADING_DAYS)
           (fmul (np_sqrt (dot [1 / INR 2; 1 / INR 2]
                               (matvec identity2 [1 / INR 2; 1 / INR 2])))
                 (np_sqrt TRADING_DAYS))
           vols), log').
Proof.
  apply (calculated_result_total nat solver_at_start flat_returns identity2
           rf (0, 1) [] [1 / INR 2; 1 / INR 2]); try reflexivity.
  intros t _. eexists. reflexivity.
Qed.

(** Risk-free rates 0 and 2%: the same Minimum Volatility solver call. *)
Lemma min_vol_ignores_risk_free_rate_witness :
  nth_error (snd (calculated_result nat solver_at_start flat_returns
                    identity2 0 (0, 1) [])) 1
  = Some (Solve (min_vol_problem nat flat_returns identity2 (0, 1)
                                 [1 / INR 2; 1 / INR 2]))
  /\ nth_error (snd (calculated_result nat solver_at_start flat_returns
                       identity2 (1 / 50) (0, 1) [])) 1
     = Some (Solve (min_vol_problem nat flat_returns identity2 (0, 1)
                                    [1 / INR 2; 1 / INR 2])).
Proof.
  pose proof (min_vol_ignores_risk_free_rate nat solver_at_start
                flat_returns identity2 (0, 1) 0 (1 / 50) [] []
                [1 / INR 2; 1 / INR 2] _ _ eq_refl eq_refl eq_refl)
    as [H1 [H2 _]].
  split; [exact H1 | exact H2].
Defined.

End Named.

(* ------------------------------------------------------------------ *)
(** * The efficient frontier *)

Module Frontier.
Import Np Spec NpFacts LoadData Performance Pipeline Grid Examples.

Section Facts.

Variable asset : Type.
Variable minimize : Problem -> res OptimizeResult.

(** The budget constraint vanishes exactly on weights that sum to one. *)
Lemma budget_zero w : budget w = Ok 0 <-> Np.sum w = 1.
Proof.
  unfold budget. split; intros H.
  - injection H as H. lra.
  - f_equal. lra.
Qed.

(** The target constraint vanishes exactly on weights whose annualized
    return is the target. *)
Lemma return_target_zero (mu : Series asset) sigma t w :
  return_target asset mu sigma t w = Ok 0
  <-> exists std, port_performance asset w mu sigma = Ok (t, std).
Proof.
  unfold return_target, portfolio_return.
  destruct (port_performance asset w mu sigma) as [[r s]|e]; simpl.
  - split.
    + intros H. injection H as H. exists s. do 2 f_equal. lra.
    + intros [std H]. injection H as -> _. f_equal. lra.
  - split; [discriminate | intros [std H]; discriminate].
Qed.

(** The volatility objective is the second component of the
    performance. *)
Lemma portfolio_var_value (mu : Series asset) sigma w r s :
  port_performance asset w mu sigma = Ok (r, s) ->
  portfolio_var asset w mu sigma = Ok s.
Proof. intros H. unfold portfolio_var. rewrite H. reflexivity. Qed.

(** C4.  A run of [calculated_result] that returns has sampled exactly
    20 target returns [rmin + i * (rmax - rmin) / 19], from the
    Minimum Volatility return [rmin] to the Maximum Sharpe return [rmax],
    both included, all equal when [rmin = rmax]; after the two named
    solves it has called the solver once per target, in order, each time
    with the volatility objective, the uniform bounds, the equal-weight
    start, and the two equality constraints "return equals the target"
    and "weights sum to one". *)
Theorem frontier_grid_and_problems mu sigma rf cs
    (log log' : list (event asset)) out :
  calculated_result asset minimize mu sigma rf cs log = (Ok out, log') ->
  exists w0 ms mv rmax smax rmin smin,
    equal_weights (List.length mu) = Ok w0
    /\ minimize (max_sharpe_problem asset mu sigma rf cs w0) = Ok ms
    /\ minimize (min_vol_problem asset mu sigma cs w0) = Ok mv
    /\ port_performance asset (x ms) mu sigma = Ok (rmax, smax)
    /\ port_performance asset (x mv) mu sigma = Ok (rmin, smin)
    /\ List.length (target_returns out) = 20%nat
    /\ (forall i, (i < 20)%nat ->
          nth_error (target_returns out) i
          = Some (rmin + INR i * ((rmax - rmin) / 19)))
    /\ nth_error (target_returns out) 0 = Some rmin
    /\ nth_error (target_returns out) 19 = Some rmax
    /\ (rmin = rmax -> target_returns out = repeat rmin 20)
    /\ log' =
       (log ++ [Solve (max_sharpe_problem asset mu sigma rf cs w0);
                Solve (min_vol_problem asset mu sigma cs w0)]
            ++ map (fun t => Solve (frontier_problem asset mu sigma t cs w0))
                   (target_returns out))%list
    /\ forall t,
         let p := frontier_problem asset mu sigma t cs w0 in
         (forall w, objective p w = portfolio_var asset w mu sigma)
         /\ bounds p = repeat cs (List.length mu)
         /\ x0 p = repeat (1 / INR (List.length mu)) (List.length mu)
         /\ exists c_return c_budget,
              constraints p = [c_return; c_budget]
              /\ (forall w, c_budget w = Ok 0 <-> Np.sum w = 1)
              /\ (forall w, c_return w = Ok 0 <->
                    exists std,
                      port_performance asset w mu sigma = Ok (t, std)).
Proof.
  intros H.
  destruct (calculated_result_ok_inv asset minimize _ _ _ _ _ _ _ H)
    as (w0 & ms & mv & rmax & smax & rmin & smin & vols
        & Hw & Hms & Hmv & Sms & Smv & Pms & Pmv & Hfl & ->).
  exists w0, ms, mv, rmax, smax, rmin, smin.
  destruct (frontier_loop_ok asset minimize mu sigma cs w0 Hw _ _ _ _ Hfl)
    as [Hlog _].
  destruct (equal_weights_inv _ _ Hw) as [_ Ew0].
  cbn [target_returns assemble].
  repeat (split; [assumption|]).
  split; [apply linspace_length|].
  split.
  { intros i Hi. rewrite (linspace_nth_error rmin rmax 18 i Hi).
    do 3 f_equal. simpl. lra. }
  split; [apply (linspace_first rmin rmax 18)|].
  split; [apply (linspace_last rmin rmax 18)|].
  split; [intros ->; apply (linspace_constant rmax 18)|].
  split.
  { rewrite Hlog, <- app_assoc. reflexivity. }
  intros t. cbn [objective bounds x0 constraints frontier_problem].
  split; [reflexivity|]. split; [reflexivity|]. split; [exact Ew0|].
  exists (return_target asset mu sigma t), budget.
  split; [reflexivity|].
  split; [apply budget_zero | intros w; apply return_target_zero].
Qed.

(** C5, as amended.  In a run that returns, the target returns are in
    strictly increasing order exactly when the Minimum Volatility return
    [rmin] is strictly below the Maximum Sharpe return [rmax]. *)
Theorem frontier_order mu sigma rf cs (log log' : list (event asset)) out
    w0 ms mv rmax smax rmin smin :
  calculated_result asset minimize mu sigma rf cs log = (Ok out, log') ->
  equal_weights (List.length mu) = Ok w0 ->
  minimize (max_sharpe_problem asset mu sigma rf cs w0) = Ok ms ->
  minimize (min_vol_problem asset mu sigma cs w0) = Ok mv ->
  port_performance asset (x ms) mu sigma = Ok (rmax, smax) ->
  port_performance asset (x mv) mu sigma = Ok (rmin, smin) ->
  (strictly_increasing (target_returns out) <-> rmin < rmax).
Proof.
  intros H Hw Hms Hmv Pms Pmv.
  destruct (calculated_result_ok_inv asset minimize _ _ _ _ _ _ _ H)
    as (w0' & ms' & mv' & rmax' & smax' & rmin' & smin' & vols
        & Hw' & Hms' & Hmv' & Sms & Smv & Pms' & Pmv' & Hfl & ->).
  assert (w0' = w0) by congruence. subst w0'.
  assert (ms' = ms) by congruence. subst ms'.
  assert (mv' = mv) by congruence. subst mv'.
  assert (E1 : (rmax', smax') = (rmax, smax)) by congruence.
  assert (E2 : (rmin', smin') = (rmin, smin)) by congruence.
  injection E1 as -> ->. injection E2 as -> ->.
  cbn [target_returns assemble].
  apply (linspace_increasing rmin rmax 18).
Qed.

(** What the sweep of a returning run has recorded, target by target. *)
Lemma frontier_entries mu sigma rf cs (log log' : list (event asset)) out :
  calculated_result asset minimize mu sigma rf cs log = (Ok out, log') ->
  exists w0,
    equal_weights (List.length mu) = Ok w0
    /\ Forall2 (fun t v => exists ef_result,
                  minimize (frontier_problem asset mu sigma t cs w0)
                    = Ok ef_result
                  /\ v = recorded ef_result)
               (target_returns out) (ef_vols out).
Proof.
  intros H.
  destruct (calculated_result_ok_inv asset minimize _ _ _ _ _ _ _ H)
    as (w0 & ms & mv & rmax & smax & rmin & smin & vols
        & Hw & Hms & Hmv & Sms & Smv & Pms & Pmv & Hfl & ->).
  destruct (frontier_loop_ok asset minimize mu sigma cs w0 Hw _ _ _ _ Hfl)
    as [_ Hall].
  exists w0. split; [exact Hw | exact Hall].
Qed.

(** The abscissas of the frontier trace follow [ef_vols] entry by
    entry. *)
Lemma ef_curve_xs vols targets :
  Forall2 (fun v vx => (isnan v = true <-> vx = None)
                       /\ (isnan v = false ->
                           vx = Some (round2 (fmul v (Num 100)))))
          vols (xs (ef_curve vols targets)).
Proof.
  cbn [xs ef_curve]. induction vols as [|v vols IH]; simpl.
  - constructor.
  - constructor; [|exact IH].
    destruct v; simpl; repeat split; intros; try discriminate; auto.
Qed.

(** Every plotted point of the frontier trace comes from an entry that
    is not [nan]. *)
Lemma plotted_from_numbers vols targets p :
  In p (plotted (ef_curve vols targets)) ->
  exists v, In v vols /\ isnan v = false
            /\ fst p = round2 (fmul v (Num 100)).
Proof.
  intros Hp. unfold plotted in Hp. apply in_flat_map in Hp.
  destruct Hp as [[vx y] [Hin Hp]]. cbn [fst snd] in Hp.
  apply in_combine_l in Hin. cbn [xs ef_curve] in Hin.
  apply in_map_iff in Hin. destruct Hin as [v [Ev Hv]].
  destruct vx as [vx|]; [|contradiction].
  destruct Hp as [<-|[]]. cbn [fst].
  exists v. split; [exact Hv|].
  destruct (isnan v); simpl in Ev; [discriminate|].
  split; [reflexivity | congruence].
Qed.

(** C6.  In a run that returns, the entry of [ef_vols] for each target
    is the minimized value [fun] of that target's solve when it
    converged and [nan] when it did not; [nan] is no number; the
    frontier trace of the chart has no abscissa exactly at the [nan]
    entries, so none of its plotted points comes from one. *)
Theorem frontier_point_recorded_or_marked mu sigma rf cs
    (log log' : list (event asset)) out :
  calculated_result asset minimize mu sigma rf cs log = (Ok out, log') ->
  let curve := ef_curve (ef_vols out) (target_returns out) in
  (exists w0,
     equal_weights (List.length mu) = Ok w0
     /\ Forall2 (fun t v => exists ef_result,
                   minimize (frontier_problem asset mu sigma t cs w0)
                     = Ok ef_result
                   /\ (success ef_result = true -> v = fun_ ef_result)
                   /\ (success ef_result = false ->
                       v = NaN /\ forall r, v <> Num r))
                (target_returns out) (ef_vols out))
  /\ Forall2 (fun v vx => (isnan v = true <-> vx = None)
                          /\ (isnan v = false ->
                              vx = Some (round2 (fmul v (Num 100)))))
             (ef_vols out) (xs curve)
  /\ forall p, In p (plotted curve) ->
       exists v, In v (ef_vols out) /\ isnan v = false
                 /\ fst p = round2 (fmul v (Num 100)).
Proof.
  intros H curve. subst curve.
  split; [|split].
  - destruct (frontier_entries _ _ _ _ _ _ _ H) as [w0 [Hw Hall]].
    exists w0. split; [exact Hw|].
    eapply Forall2_impl; [|exact Hall].
    intros t v [er [Her ->]]. exists er. split; [exact Her|].
    unfold recorded. split; intros Hs; rewrite Hs; [reflexivity|].
    split; [reflexivity | discriminate].
  - apply ef_curve_xs.
  - intros p. apply plotted_from_numbers.
Qed.

(** Without expected returns every portfolio returns zero: whatever the
    solver answers, the targets of a returning run do not increase. *)
Lemma no_return_no_increase (mu : Series asset) sigma rf cs
    (log log' : list (event asset)) out :
  Forall (fun row => snd row = 0) mu ->
  calculated_result asset minimize mu sigma rf cs log = (Ok out, log') ->
  ~ strictly_increasing (target_returns out).
Proof.
  intros Hzero H.
  destruct (calculated_result_ok_inv asset minimize _ _ _ _ _ _ _ H)
    as (w0 & ms & mv & rmax & smax & rmin & smin & vols
        & Hw & Hms & Hmv & Sms & Smv & Pms & Pmv & Hfl & ->).
  cbn [target_returns assemble]. intros Hinc.
  apply (linspace_increasing rmin rmax 18) in Hinc.
  assert (Hsum : forall w, Np.sum (Np.mul (map snd mu) w) = 0).
  { clear -Hzero. induction Hzero as [|[k m] mu Hm _ IH]; intros w.
    - reflexivity.
    - destruct w as [|wi w]; [reflexivity|]. simpl in *. subst m.
      rewrite IH. lra. }
  unfold port_performance in Pms, Pmv.
  destruct (shapes_match asset (x ms) mu sigma); [|discriminate].
  destruct (shapes_match asset (x mv) mu sigma); [|discriminate].
  injection Pms as <- _. injection Pmv as <- _.
  rewrite !Hsum in Hinc. lra.
Qed.

End Facts.

End Frontier.

(* ------------------------------------------------------------------ *)
(** * Frontier runs on concrete inputs *)

Module FrontierRuns.
Import Np Spec NpFacts LoadData Performance Pipeline Grid Examples.
Import Named Frontier.

(** The zero portfolio of two assets has zero volatility. *)
Lemma zero_portfolio_std (mu : Series nat) :
  List.length mu = 2%nat ->
  port_performance nat [0; 0] mu identity2
  = Ok (Np.sum (Np.mul (map snd mu) [0; 0]) * TRADING_DAYS,
        Num (0 * sqrt TRADING_DAYS)).
Proof.
  intros Hlen. unfold port_performance, shapes_match. rewrite Hlen.
  cbn [List.length identity2 Nat.eqb forallb andb].
  do 2 f_equal.
  replace (dot [0; 0] (matvec identity2 [0; 0])) with 0
    by (unfold dot, identity2; simpl; lra).
  rewrite (np_sqrt_nonneg 0), (np_sqrt_nonneg TRADING_DAYS), sqrt_0
    by (unfold TRADING_DAYS; lra).
  reflexivity.
Qed.

Lemma negative_sharpe_zero_portfolio (mu : Series nat) rf :
  List.length mu = 2%nat ->
  negative_sharpe nat [0; 0] mu identity2 rf = Ok PosInf.
Proof.
  intros Hlen. unfold negative_sharpe.
  rewrite (zero_portfolio_std mu Hlen). cbn [rbind].
  replace (isclose (Num (0 * sqrt TRADING_DAYS)) (Num 0)) with true;
    [reflexivity|].
  symmetry. apply isclose_zero. eexists. split; [reflexivity|].
  rewrite Rmult_0_l, Rabs_R0. pose proof atol_pos. lra.
Qed.

Lemma portfolio_var_zero_portfolio (mu : Series nat) :
  List.length mu = 2%nat ->
  portfolio_var nat [0; 0] mu identity2 = Ok (Num (0 * sqrt TRADING_DAYS)).
Proof.
  intros Hlen. unfold portfolio_var.
  rewrite (zero_portfolio_std mu Hlen). reflexivity.
Qed.

(** What the corner solver answers on the three kinds of problem. *)
Lemma solver_corner_sharpe rf cs w0 :
  solver_corner (max_sharpe_problem nat two_returns identity2 rf cs w0)
  = Ok {| x := [0; 1]; success := true;
          message := "Optimization terminated successfully";
          fun_ := Num 0 |}.
Proof.
  unfold solver_corner. cbn [objective max_sharpe_problem].
  rewrite negative_sharpe_zero_portfolio by reflexivity. reflexivity.
Qed.

Lemma solver_corner_min_vol cs w0 :
  solver_corner (min_vol_problem nat two_returns identity2 cs w0)
  = Ok {| x := [1; 0]; success := true;
          message := "Optimization terminated successfully";
          fun_ := Num 0 |}.
Proof.
  unfold solver_corner. cbn [objective min_vol_problem].
  rewrite portfolio_var_zero_portfolio by reflexivity. reflexivity.
Qed.

Lemma solver_corner_runs :
  exists vols log',
    calculated_result nat solver_corner two_returns identity2 0 (0, 1) [] =
    (Ok (assemble nat two_returns
           {| x := [0; 1]; success := true;
              message := "Optimization terminated successfully";
              fun_ := Num 0 |}
           {| x := [1; 0]; success := true;
              message := "Optimization terminated successfully";
              fun_ := Num 0 |}
           (Np.sum (Np.mul [1; 2] [0; 1]) * TRADING_DAYS)
           (fmul (np_sqrt (dot [0; 1] (matvec identity2 [0; 1])))
                 (np_sqrt TRADING_DAYS))
           (Np.sum (Np.mul [1; 2] [1; 0]) * TRADING_DAYS)
           (fmul (np_sqrt (dot [1; 0] (matvec identity2 [1; 0])))
                 (np_sqrt TRADING_DAYS))
           vols), log').
Proof.
  apply (calculated_result_total nat solver_corner two_returns identity2
           0 (0, 1) [] [1 / INR 2; 1 / INR 2]);
    try reflexivity.
  - apply solver_corner_sharpe.
  - apply solver_corner_min_vol.
  - intros t _. eexists. reflexivity.
Qed.

(** The solver that converges on named portfolios only. *)
Lemma solver_named_only_runs :
  exists out log',
    calculated_result nat solver_named_only flat_returns identity2
                      0 (0, 1) [] = (Ok out, log').
Proof.
  destruct (calculated_result_total nat solver_named_only flat_returns
              identity2 0 (0, 1) [] [1 / INR 2; 1 / INR 2]
              _ _ _ _ _ _ eq_refl eq_refl eq_refl eq_refl eq_refl
              eq_refl eq_refl) as [vols [log' H]].
  - intros t _. eexists. reflexivity.
  - eauto.
Qed.

(** Twenty targets from the Minimum Volatility return to the Maximum
    Sharpe return. *)
Lemma frontier_grid_and_problems_witness :
  exists out log',
    calculated_result nat solver_corner two_returns identity2 0 (0, 1) []
    = (Ok out, log')
    /\ List.length (target_returns out) = 20%nat.
Proof.
  destruct solver_corner_runs as [vols [log' H]].
  eexists. exists log'. split; [exact H|].
  destruct (frontier_grid_and_problems nat solver_corner _ _ _ _ _ _ _ H)
    as (w0 & ms & mv & rmax & smax & rmin & smin & _ & _ & _ & _ & _
        & Hlen & _).
  exact Hlen.
Defined.

(** Against C5 as stated: two assets without expected return, identity
    covariance, no risk-free return, long-only bounds.  Every portfolio
    has return zero and the equal-weight start is optimal for both named
    portfolios; the run returns and its twenty targets are all equal. *)
Lemma frontier_order_counterexample :
  match fst (calculated_result nat solver_at_start flat_returns identity2
               0 (0, 1) []) with
  | Ok out => ~ strictly_increasing (target_returns out)
  | Raise _ => False
  end.
Proof.
  destruct (solver_at_start_runs 0) as [vols [log' H]].
  rewrite H. cbn [fst].
  eapply (no_return_no_increase nat solver_at_start flat_returns);
    [repeat constructor | exact H].
Qed.

(** Returns 252 and 504 for the two named portfolios: increasing. *)
Lemma frontier_order_witness :
  exists out log',
    calculated_result nat solver_corner two_returns identity2 0 (0, 1) []
    = (Ok out, log')
    /\ strictly_increasing (target_returns out).
Proof.
  destruct solver_corner_runs as [vols [log' H]].
  eexists. exists log'. split; [exact H|].
  apply (proj2 (frontier_order nat solver_corner two_returns identity2
                  0 (0, 1) [] log' _ [1 / INR 2; 1 / INR 2] _ _ _ _ _ _
                  H eq_refl (solver_corner_sharpe 0 (0, 1) _)
                  (solver_corner_min_vol (0, 1) _) eq_refl eq_refl)).
  unfold TRADING_DAYS. simpl. lra.
Defined.

(** No frontier solve converges: every entry is [nan]. *)
Lemma frontier_point_recorded_or_marked_witness :
  exists out log',
    calculated_result nat solver_named_only flat_returns identity2
                      0 (0, 1) [] = (Ok out, log')
    /\ Forall2 (fun v vx => (isnan v = true <-> vx = None)
                            /\ (isnan v = false ->
                                vx = Some (round2 (fmul v (Num 100)))))
               (ef_vols out)
               (xs (ef_curve (ef_vols out) (target_returns out))).
Proof.
  destruct solver_named_only_runs as [out [log' H]].
  exists out, log'. split; [exact H|].
  exact (proj1 (proj2
    (frontier_point_recorded_or_marked nat solver_named_only _ _ _ _ _ _ _
       H))).
Defined.

(** In that run nothing of the frontier is plotted. *)
Lemma nothing_plotted_when_all_infeasible out log' :
  calculated_result nat solver_named_only flat_returns identity2
                    0 (0, 1) [] = (Ok out, log') ->
  Forall (fun v => v = NaN) (ef_vols out)
  /\ plotted (ef_curve (ef_vols out) (target_returns out)) = [].
Proof.
  intros H.
  destruct (frontier_entries nat solver_named_only _ _ _ _ _ _ _ H)
    as [w0 [Hw Hall]].
  assert (Hnan : Forall (fun v => v = NaN) (ef_vols out)).
  { induction Hall as [|t v ts vs [er [Her Hv]] _ IH];
      constructor; [|exact IH].
    unfold solver_named_only in Her. cbn in Her.
    injection Her as <-. exact Hv. }
  split; [exact Hnan|].
  destruct (plotted _) as [|p ps] eqn:E; [reflexivity|].
  assert (Hp : In p (plotted (ef_curve (ef_vols out) (target_returns out))))
    by (rewrite E; left; reflexivity).
  destruct (plotted_from_numbers _ _ _ Hp) as [v [Hin [Hv _]]].
  rewrite Forall_forall in Hnan. rewrite (Hnan v Hin) in Hv. discriminate.
Qed.

End FrontierRuns.

(* ------------------------------------------------------------------ *)
(** * The ticker parser *)

Module Tickers.
Import Spec App.

Section Facts.

Variable char : Type.
Variable char_eq_dec : forall a b : char, {a = b} + {a <> b}.
Variable comma : char.
Variable isspace : char -> bool.
Variable upper : list char -> list char.

#[local] Abbreviation str := (list char).
#[local] Abbreviation str_eq_dec := (App.str_eq_dec char char_eq_dec).
#[local] Abbreviation split := (App.split char char_eq_dec comma).
#[local] Abbreviation join := (App.join char comma).
#[local] Abbreviation lstrip := (App.lstrip char isspace).
#[local] Abbreviation rstrip := (App.rstrip char isspace).
#[local] Abbreviation strip := (App.strip char isspace).

(** ** Splitting *)

Lemma split_nonempty s : split s <> [].
Proof.
  destruct s as [|c s]; simpl; [discriminate|].
  destruct (char_eq_dec c comma); [discriminate|].
  destruct (App.split char char_eq_dec comma s); discriminate.
Qed.

(** Joining the tokens with commas gives the text back. *)
Lemma join_split s : join (split s) = s.
Proof.
  induction s as [|c s IH]; [reflexivity|].
  simpl. destruct (char_eq_dec c comma) as [->|Hne].
  - pose proof (split_nonempty s) as Hs.
    destruct (split s) as [|tok rest] eqn:E; [congruence|].
    change (join ([] :: tok :: rest)) with (comma :: join (tok :: rest)).
    rewrite IH. reflexivity.
  - pose proof (split_nonempty s) as Hs.
    destruct (split s) as [|tok rest] eqn:E; [congruence|].
    rewrite <- IH.
    destruct rest as [|tok' rest]; reflexivity.
Qed.

(** No token contains a comma. *)
Lemma split_no_comma s : Forall (fun tok => ~ In comma tok) (split s).
Proof.
  induction s as [|c s IH]; simpl.
  - constructor; [intros []|constructor].
  - destruct (char_eq_dec c comma) as [->|Hne].
    + constructor; [intros []|exact IH].
    + destruct (split s) as [|tok rest].
      * constructor; [|constructor]. intros [H|[]]. congruence.
      * inversion IH as [|? ? Htok Hrest]; subst.
        constructor; [|exact Hrest].
        intros [H|H]; [congruence | exact (Htok H)].
Qed.

(** ** Stripping *)

Lemma lstrip_decompose s :
  exists l, s = l ++ lstrip s /\ forallb isspace l = true.
Proof.
  induction s as [|c s [l [E Hl]]].
  - exists []. split; reflexivity.
  - simpl. destruct (isspace c) eqn:Hc.
    + exists (c :: l). split; [simpl; f_equal; exact E|].
      simpl. rewrite Hc. exact Hl.
    + exists []. split; reflexivity.
Qed.

Lemma lstrip_head s c rest : lstrip s = c :: rest -> isspace c = false.
Proof.
  induction s as [|d s IH]; simpl; [discriminate|].
  destruct (isspace d) eqn:Hd; [exact IH|].
  intros H. injection H as <- _. exact Hd.
Qed.

Lemma rstrip_decompose s :
  exists r, s = rstrip s ++ r /\ forallb isspace r = true.
Proof.
  destruct (lstrip_decompose (rev s)) as [l [E Hl]].
  exists (rev l). split.
  - unfold App.rstrip.
    rewrite <- rev_app_distr, <- E, rev_involutive. reflexivity.
  - rewrite forallb_forall in *. intros c Hc. apply Hl, in_rev, Hc.
Qed.

Lemma rstrip_last s c init : rstrip s = init ++ [c] -> isspace c = false.
Proof.
  unfold App.rstrip. intros H.
  apply (f_equal (@rev char)) in H.
  rewrite rev_involutive, rev_app_distr in H. simpl in H.
  exact (lstrip_head _ _ _ H).
Qed.

(** [rstrip] only removes from the end: a non-empty result starts like
    the argument. *)
Lemma rstrip_head s c rest :
  rstrip s = c :: rest -> exists rest', s = c :: rest'.
Proof.
  intros H. destruct (rstrip_decompose s) as [r [E _]].
  rewrite H in E. simpl in E. eauto.
Qed.

(** The stripped token sits inside the token between two runs of
    whitespace and neither starts nor ends with whitespace. *)
Lemma strip_spec s :
  (exists l r, s = l ++ strip s ++ r
               /\ forallb isspace l = true /\ forallb isspace r = true)
  /\ (forall c rest, strip s = c :: rest -> isspace c = false)
  /\ (forall c init, strip s = init ++ [c] -> isspace c = false).
Proof.
  unfold App.strip.
  split; [|split].
  - destruct (lstrip_decompose s) as [l [El Hl]].
    destruct (rstrip_decompose (lstrip s)) as [r [Er Hr]].
    exists l, r. split; [|split; assumption].
    rewrite <- Er. exact El.
  - intros c rest H.
    destruct (rstrip_head _ _ _ H) as [rest' E].
    exact (lstrip_head _ _ _ E).
  - intros c init H. exact (rstrip_last _ _ _ H).
Qed.

(** ** Dictionary keys *)

#[local] Abbreviation fresh := (App.fresh char char_eq_dec).

Lemma filter_remove (P Q : str -> bool) a m :
  (forall y, Q y = P y && (if str_eq_dec a y then false else true)) ->
  filter Q m = filter P (remove str_eq_dec a m).
Proof.
  intros HQ. induction m as [|y m IH]; [reflexivity|].
  simpl. rewrite HQ.
  destruct (str_eq_dec a y) as [->|Hne].
  - rewrite andb_false_r. exact IH.
  - rewrite andb_true_r. simpl. destruct (P y); [f_equal|]; exact IH.
Qed.

Lemma dict_fromkeys_acc keys : forall d,
  fold_left (App.dict_add char char_eq_dec) keys d
  = d ++ filter (fresh d) (first_occurrences str_eq_dec keys).
Proof.
  induction keys as [|a keys IH]; intros d.
  - simpl. rewrite app_nil_r. reflexivity.
  - simpl. unfold App.dict_add at 2.
    destruct (fresh d a) eqn:Ef.
    + rewrite IH, <- app_assoc. simpl. do 2 f_equal.
      apply filter_remove. intros y. unfold App.fresh.
      assert (Hiff : In y (d ++ [a]) <-> In y d \/ a = y)
        by (rewrite in_app_iff; simpl; tauto).
      destruct (in_dec str_eq_dec y (d ++ [a])) as [H1|H1];
        destruct (in_dec str_eq_dec y d) as [H2|H2];
        destruct (str_eq_dec a y) as [E|E]; simpl; try reflexivity;
        exfalso; tauto.
    + rewrite IH. f_equal. apply filter_remove.
      intros y. destruct (str_eq_dec a y) as [<-|_].
      * rewrite andb_false_r. exact Ef.
      * rewrite andb_true_r. reflexivity.
Qed.

Lemma filter_all {A} (f : A -> bool) l :
  (forall a, f a = true) -> filter f l = l.
Proof.
  intros H. induction l as [|a l IH]; simpl; [reflexivity|].
  rewrite H, IH. reflexivity.
Qed.

(** [dict.fromkeys] keeps the first occurrence of every key. *)
Lemma dict_fromkeys_first_occurrences keys :
  App.dict_fromkeys char char_eq_dec keys
  = first_occurrences str_eq_dec keys.
Proof.
  unfold App.dict_fromkeys. rewrite dict_fromkeys_acc. simpl.
  apply filter_all. reflexivity.
Qed.

Lemma first_occurrences_In (l : list str) t :
  In t (first_occurrences str_eq_dec l) <-> In t l.
Proof.
  induction l as [|a l IH]; simpl; [tauto|].
  split.
  - intros [H|H]; [auto|]. apply in_remove in H. right. apply IH, H.
  - intros [H|H]; [auto|].
    destruct (str_eq_dec a t) as [E|E]; [auto|].
    right. apply in_in_remove; [congruence | apply IH, H].
Qed.

Lemma first_occurrences_NoDup (l : list str) :
  NoDup (first_occurrences str_eq_dec l).
Proof.
  induction l as [|a l IH]; simpl; constructor.
  - apply remove_In.
  - rewrite <- remove_alt. apply NoDup_filter, IH.
Qed.

(** The first element stays first; what follows is the result for the
    rest of the list, without that element. *)
Lemma first_occurrences_cons (a : str) l :
  first_occurrences str_eq_dec (a :: l)
  = a :: remove str_eq_dec a (first_occurrences str_eq_dec l).
Proof. reflexivity. Qed.

(** C10.  [_parse_tickers raw] is computed from the tokens of
    [raw.split(",")], which joined by commas give [raw] back and contain
    no comma.  Each token is stripped, which removes a run of whitespace
    at either end and leaves none there; tokens empty after stripping
    are dropped, the others are uppercased; of equal results only the
    first occurrence is kept, in the order of the text.  The list
    returned has no duplicate, and its members are exactly the
    uppercased stripped non-empty tokens. *)
Theorem parse_tickers_spec (raw : str) :
  let tokens := split raw in
  let cleaned :=
    map (fun t => upper (strip t))
        (filter (fun t => App.truthy char (strip t)) tokens) in
  join tokens = raw
  /\ Forall (fun tok => ~ In comma tok) tokens
  /\ (forall tok,
        (exists l r, tok = l ++ strip tok ++ r
                     /\ forallb isspace l = true
                     /\ forallb isspace r = true)
        /\ (forall c rest, strip tok = c :: rest -> isspace c = false)
        /\ (forall c init, strip tok = init ++ [c] -> isspace c = false))
  /\ App._parse_tickers char char_eq_dec comma isspace upper raw
     = first_occurrences str_eq_dec cleaned
  /\ NoDup (App._parse_tickers char char_eq_dec comma isspace upper raw)
  /\ forall t,
       In t (App._parse_tickers char char_eq_dec comma isspace upper raw)
       <-> exists tok, In tok tokens /\ strip tok <> []
                       /\ t = upper (strip tok).
Proof.
  intros tokens cleaned.
  assert (E : App._parse_tickers char char_eq_dec comma isspace upper raw
              = first_occurrences str_eq_dec cleaned)
    by apply dict_fromkeys_first_occurrences.
  split; [apply join_split|].
  split; [apply split_no_comma|].
  split; [apply strip_spec|].
  split; [exact E|].
  split; [rewrite E; apply first_occurrences_NoDup|].
  intros t. rewrite E, first_occurrences_In. unfold cleaned.
  rewrite in_map_iff. split.
  - intros [tok [<- Hin]]. apply filter_In in Hin. destruct Hin as [Hin Ht].
    exists tok. split; [exact Hin|]. split; [|reflexivity].
    intros Hnil. rewrite Hnil in Ht. discriminate.
  - intros [tok [Hin [Hne ->]]]. exists tok. split; [reflexivity|].
    apply filter_In. split; [exact Hin|].
    destruct (strip tok); [contradiction | reflexivity].
Qed.

End Facts.

(** On the default text of the form and on a messier one. *)
Example parse_default :
  parse_ascii "MSFT,GOOGL,NVDA" = ["MSFT"; "GOOGL"; "NVDA"]%string.
Proof. reflexivity. Qed.

Example parse_messy :
  parse_ascii "msft, googl ,,  ,Msft,nvda ,GOOGL"
  = ["MSFT"; "GOOGL"; "NVDA"]%string.
Proof. reflexivity. Qed.

Example parse_empty : parse_ascii "" = [].
Proof. reflexivity. Qed.

End Tickers.

(* ------------------------------------------------------------------ *)
(** * The page: validation and presentation *)

Module Page.
Import Np Spec NpFacts LoadData Performance Pipeline Examples App.

Section Facts.

Variable char : Type.
Variable char_eq_dec : forall a b : char, {a = b} + {a <> b}.
Variable comma : char.
Variable isspace : char -> bool.
Variable upper : list char -> list char.
Variable minimize : Problem -> res OptimizeResult.
Variable stooq_statistics :
  list (App.str char) -> Z -> Z
  -> res (option (Series (App.str char) * DataFrame)).

#[local] Abbreviation str := (App.str char).
#[local] Abbreviation parse :=
  (_parse_tickers char char_eq_dec comma isspace upper).
#[local] Abbreviation run :=
  (page char char_eq_dec comma isspace upper minimize stooq_statistics).
#[local] Abbreviation load :=
  (_load_statistics char stooq_statistics).

(** [get_data] checks its arguments before it reads anything. *)
Lemma get_data_degenerate_window (stocks : list str) start_date end_date
    (log : list (event str)) :
  stocks <> [] -> (end_date <= start_date)%Z ->
  load stocks start_date end_date log
  = (Raise (ValueError "Start date must be earlier than end date."), log).
Proof.
  intros Hne Hwin. unfold _load_statistics, get_data.
  destruct stocks as [|s stocks]; [congruence|].
  replace (start_date >=? end_date)%Z with true
    by (symmetry; apply Z.geb_le; exact Hwin).
  reflexivity.
Qed.

(** C9.  When the run button is pressed on fewer than two tickers, on a
    lower bound not below the upper bound, or on a start date not
    before the end date, the page shows an error and the event log is
    unchanged: the data source was not read and the solver was not
    called. *)
Theorem invalid_input_stops_before_any_solve (raw : str)
    (start_date end_date : Z) (rf lower_bound upper_bound : R)
    (log : list (event str)) :
  (List.length (parse raw) < 2)%nat
  \/ upper_bound <= lower_bound
  \/ (end_date <= start_date)%Z ->
  run raw start_date end_date rf lower_bound upper_bound true log =
    (if (List.length (parse raw) <? 2)%nat then
       st_error "Please enter at least 2 tickers."
     else if Rleb upper_bound lower_bound then
       st_error "Lower bound must be smaller than upper bound."
     else
       st_error_failed
         (ValueError "Start date must be earlier than end date."),
     log).
Proof.
  intros Hbad. unfold page.
  destruct (List.length (parse raw) <? 2)%nat eqn:Hn; [reflexivity|].
  destruct (Rleb upper_bound lower_bound) eqn:Hb; [reflexivity|].
  apply Nat.ltb_ge in Hn. apply Rleb_false in Hb.
  destruct Hbad as [H|[H|H]]; [lia | lra |].
  unfold bind at 1.
  rewrite get_data_degenerate_window; [reflexivity | | exact H].
  intros E. rewrite E in Hn. simpl in Hn. lia.
Qed.

(** What lies behind a page of results. *)
Lemma page_results_inv (raw : str) start_date end_date rf lower_bound
    upper_bound (log log' : list (event str)) a b c d fig dopt dmin :
  run raw start_date end_date rf lower_bound upper_bound true log
  = (st_results a b c d fig dopt dmin, log') ->
  exists mean_return covar out log1 log2,
    (2 <= List.length (parse raw))%nat
    /\ lower_bound < upper_bound
    /\ load (parse raw) start_date end_date log
       = (Ok (mean_return, covar), log1)
    /\ calculated_result str minimize mean_return covar rf
         (lower_bound, upper_bound) log1 = (Ok out, log2)
    /\ ef_graph str minimize mean_return covar rf
         (lower_bound, upper_bound) log2 = (Ok fig, log')
    /\ a = opt_return out /\ b = opt_std out
    /\ c = minimal_return out /\ d = minimal_std out
    /\ dopt = display_allocation char (optimal_allocation out)
    /\ dmin = display_allocation char (minimal_allocation out).
Proof.
  intros H. unfold page in H.
  destruct (List.length (parse raw) <? 2)%nat eqn:Hn; [discriminate|].
  destruct (Rleb upper_bound lower_bound) eqn:Hb; [discriminate|].
  apply Nat.ltb_ge in Hn. apply Rleb_false in Hb.
  unfold bind at 1 in H.
  destruct (load (parse raw) start_date end_date log)
    as [[[mean_return covar]|e] log1] eqn:El; [|discriminate].
  cbv beta iota in H. unfold bind at 1 in H.
  destruct (calculated_result str minimize mean_return covar rf
              (lower_bound, upper_bound) log1)
    as [[out|e] log2] eqn:Ec; [|discriminate].
  cbv beta iota in H. unfold bind at 1 in H.
  destruct (ef_graph str minimize mean_return covar rf
              (lower_bound, upper_bound) log2)
    as [[fig'|e] log3] eqn:Eg; [|discriminate].
  cbv beta iota in H. unfold ret in H. inversion H; subst.
  exists mean_return, covar, out, log1, log2.
  repeat split; auto.
Qed.

Lemma round2_rounded v s :
  v = Num s ->
  exists p, round2 (fmul v (Num 100)) = Num p
            /\ rounded_to_2_decimals (s * 100) p.
Proof.
  intros ->. simpl. eexists. split; [reflexivity|].
  apply round2R_rounded.
Qed.

(** One row per asset, each weight as a rounded percentage. *)
Lemma display_allocation_rounded (mean_return : Series str) (w : list R) :
  List.length mean_return = List.length w ->
  let table := display_allocation char
                 (allocation_frame str w mean_return) in
  map fst table = map fst mean_return
  /\ Forall2 (fun wi row => rounded_to_2_decimals (wi * 100) (snd row))
             w table.
Proof.
  unfold display_allocation, allocation_frame.
  revert w. induction mean_return as [|[k m] mu IH]; intros [|wi w] Hlen;
    simpl in *; try discriminate.
  - split; constructor.
  - destruct (IH w) as [Hk Hr]; [congruence|].
    split; [f_equal; exact Hk|].
    constructor; [apply round2R_rounded | exact Hr].
Qed.

(** C7.  On a page of results, with [mean_return] and [covar] the
    loaded statistics and [rmax], [smax] and [rmin], [smin] the raw
    performance of the Maximum Sharpe and Minimum Volatility
    weights: each shown return is the raw return times 100 rounded to
    two decimals; each shown volatility is numpy's rounding of the raw
    volatility times 100, a number rounded to two decimals whenever the
    raw volatility is a number; each allocation table has one row per
    asset, in the order of the statistics, holding the weight times 100
    rounded to two decimals. *)
Theorem results_are_rounded_percentages (raw : str) start_date end_date
    rf lower_bound upper_bound (log log' : list (event str))
    shown_opt_return shown_opt_std shown_min_return shown_min_std fig
    display_opt display_min :
  run raw start_date end_date rf lower_bound upper_bound true log
  = (st_results shown_opt_return shown_opt_std shown_min_return
                shown_min_std fig display_opt display_min, log') ->
  exists mean_return covar log1 w0 ms mv rmax smax rmin smin,
    load (parse raw) start_date end_date log
      = (Ok (mean_return, covar), log1)
    /\ minimize (max_sharpe_problem str mean_return covar rf
                   (lower_bound, upper_bound) w0) = Ok ms
    /\ minimize (min_vol_problem str mean_return covar
                   (lower_bound, upper_bound) w0) = Ok mv
    /\ port_performance str (x ms) mean_return covar = Ok (rmax, smax)
    /\ port_performance str (x mv) mean_return covar = Ok (rmin, smin)
    /\ rounded_to_2_decimals (rmax * 100) shown_opt_return
    /\ rounded_to_2_decimals (rmin * 100) shown_min_return
    /\ shown_opt_std = round2 (fmul smax (Num 100))
    /\ shown_min_std = round2 (fmul smin (Num 100))
    /\ (forall s, smax = Num s ->
          exists p, shown_opt_std = Num p
                    /\ rounded_to_2_decimals (s * 100) p)
    /\ (forall s, smin = Num s ->
          exists p, shown_min_std = Num p
                    /\ rounded_to_2_decimals (s * 100) p)
    /\ map fst display_opt = map fst mean_return
    /\ Forall2 (fun w row => rounded_to_2_decimals (w * 100) (snd row))
               (x ms) display_opt
    /\ map fst display_min = map fst mean_return
    /\ Forall2 (fun w row => rounded_to_2_decimals (w * 100) (snd row))
               (x mv) display_min.
Proof.
  intros H.
  destruct (page_results_inv _ _ _ _ _ _ _ _ _ _ _ _ _ _ _ H)
    as (mean_return & covar & out & log1 & log2 & _ & _ & Hl & Hc & _
        & -> & -> & -> & -> & -> & ->).
  destruct (calculated_result_ok_inv str minimize _ _ _ _ _ _ _ Hc)
    as (w0 & ms & mv & rmax & smax & rmin & smin & vols
        & Hw & Hms & Hmv & Sms & Smv & Pms & Pmv & Hfl & ->).
  exists mean_return, covar, log1, w0, ms, mv, rmax, smax, rmin, smin.
  cbn [opt_return opt_std minimal_return minimal_std optimal_allocation
       minimal_allocation assemble].
  destruct (shapes_match_inv str _ _ _ (port_performance_ok_inv str _ _ _ _ Pms))
    as [Lms _].
  destruct (shapes_match_inv str _ _ _ (port_performance_ok_inv str _ _ _ _ Pmv))
    as [Lmv _].
  destruct (display_allocation_rounded mean_return (x ms) Lms) as [K1 R1].
  destruct (display_allocation_rounded mean_return (x mv) Lmv) as [K2 R2].
  repeat (split; [assumption|]).
  split; [apply round2R_rounded|].
  split; [apply round2R_rounded|].
  split; [reflexivity|]. split; [reflexivity|].
  split; [intros s Hs; apply round2_rounded, Hs|].
  split; [intros s Hs; apply round2_rounded, Hs|].
  repeat split; assumption.
Qed.

End Facts.

End Page.

(* ------------------------------------------------------------------ *)
(** * Runs of the page on concrete inputs *)

Module PageRuns.
Import Np Spec NpFacts LoadData Performance Pipeline Examples App.
Import Named Page.

Section Progress.

Variable asset : Type.

(** The solver that stays at the start makes [calculated_result] return
    on every non-empty input of matching shape. *)
Lemma solver_at_start_total (mu : Series asset) sigma rf cs
    (log : list (event asset)) :
  mu <> [] -> List.length sigma = List.length mu ->
  Forall (fun row => List.length row = List.length mu) sigma ->
  exists out log',
    calculated_result asset solver_at_start mu sigma rf cs log
    = (Ok out, log').
Proof.
  intros Hne Hs Hrows.
  assert (Hn : List.length mu <> O) by (destruct mu; simpl; congruence).
  pose proof (equal_weights_ok _ Hn) as Hw.
  set (w0 := repeat (1 / INR (List.length mu)) (List.length mu)) in *.
  assert (Hlen : List.length w0 = List.length mu) by apply repeat_length.
  pose proof (port_performance_ok asset w0 mu sigma
                (List.length mu) Hlen eq_refl Hs Hrows) as Hp.
  destruct (calculated_result_total asset solver_at_start mu sigma rf cs
              log w0 _ _ _ _ _ _ Hw eq_refl eq_refl eq_refl eq_refl Hp Hp)
    as [vols [log' H]].
  - intros t _. eexists. reflexivity.
  - eauto.
Qed.

End Progress.

Section Progress_page.

Variable char : Type.
Variable char_eq_dec : forall a b : char, {a = b} + {a <> b}.
Variable comma : char.
Variable isspace : char -> bool.
Variable upper : list char -> list char.
Variable minimize : Problem -> res OptimizeResult.
Variable stooq_statistics :
  list (App.str char) -> Z -> Z
  -> res (option (Series (App.str char) * DataFrame)).

#[local] Abbreviation str := (App.str char).

Lemma ef_graph_ok (mu : Series str) sigma rf cs
    (log log' : list (event str)) out :
  calculated_result str minimize mu sigma rf cs log = (Ok out, log') ->
  exists fig, ef_graph str minimize mu sigma rf cs log = (Ok fig, log').
Proof.
  intros H. unfold ef_graph, bind. rewrite H. unfold ret. eauto.
Qed.

(** The page shows results when the input is valid, the statistics load
    and both runs of the core return. *)
Lemma page_shows_results (raw : str) start_date end_date rf lower_bound
    upper_bound (log log1 log2 log3 : list (event str))
    mean_return covar out fig :
  (2 <= List.length (_parse_tickers char char_eq_dec comma isspace upper raw))%nat ->
  lower_bound < upper_bound ->
  _load_statistics char stooq_statistics
    (_parse_tickers char char_eq_dec comma isspace upper raw)
    start_date end_date log = (Ok (mean_return, covar), log1) ->
  calculated_result str minimize mean_return covar rf
    (lower_bound, upper_bound) log1 = (Ok out, log2) ->
  ef_graph str minimize mean_return covar rf
    (lower_bound, upper_bound) log2 = (Ok fig, log3) ->
  page char char_eq_dec comma isspace upper minimize stooq_statistics
       raw start_date end_date rf lower_bound upper_bound true log
  = (st_results (opt_return out) (opt_std out) (minimal_return out)
                (minimal_std out) fig
                (display_allocation char (optimal_allocation out))
                (display_allocation char (minimal_allocation out)), log3).
Proof.
  intros Hn Hb Hl Hc Hg. unfold page.
  replace (List.length (_parse_tickers char char_eq_dec comma isspace upper raw) <? 2)%nat
    with false by (symmetry; apply Nat.ltb_ge; exact Hn).
  replace (Rleb upper_bound lower_bound) with false
    by (symmetry; apply Rleb_false; exact Hb).
  unfold bind at 1. rewrite Hl. cbv beta iota.
  unfold bind at 1. rewrite Hc. cbv beta iota.
  unfold bind at 1. rewrite Hg. reflexivity.
Qed.

End Progress_page.

Lemma parse_two_tickers :
  _parse_tickers ascii ascii_dec ","%char isspace_ascii upper_ascii
                 (list_ascii_of_string "a, b")
  = [list_ascii_of_string "A"; list_ascii_of_string "B"].
Proof. reflexivity. Qed.

(** Two tickers, one year of data, the solver staying at the start:
    the page shows results. *)
Lemma page_ascii_shows_results :
  exists a b c d fig dopt dmin log',
    page_ascii solver_at_start flat_statistics "a, b" 0 365
               (1 / 50) 0 1 true []
    = (st_results a b c d fig dopt dmin, log').
Proof.
  set (mu := [(list_ascii_of_string "A", 0); (list_ascii_of_string "B", 0)]).
  assert (Hl : forall log,
    _load_statistics ascii flat_statistics
      (_parse_tickers ascii ascii_dec ","%char isspace_ascii upper_ascii
                      (list_ascii_of_string "a, b")) 0 365 log
    = (Ok (mu, identity2), (log ++ [Fetch [list_ascii_of_string "A";
                                           list_ascii_of_string "B"] 0 365])%list)).
  { intros log. rewrite parse_two_tickers. reflexivity. }
  destruct (solver_at_start_total (App.str ascii) mu identity2 (1 / 50) (0, 1)
              ([] ++ [Fetch [list_ascii_of_string "A";
                             list_ascii_of_string "B"] 0 365])%list)
    as [out [log2 Hc]];
    [discriminate | reflexivity | repeat constructor |].
  destruct (solver_at_start_total (App.str ascii) mu identity2 (1 / 50) (0, 1) log2)
    as [out' [log3 Hc']];
    [discriminate | reflexivity | repeat constructor |].
  destruct (ef_graph_ok ascii solver_at_start mu identity2 _ _ _ _ _ Hc')
    as [fig Hg].
  do 7 eexists. exists log3.
  unfold page_ascii.
  eapply (page_shows_results ascii ascii_dec ","%char isspace_ascii
            upper_ascii solver_at_start flat_statistics);
    [ | | apply Hl | exact Hc | exact Hg].
  - rewrite parse_two_tickers. simpl. lia.
  - lra.
Qed.

(** One ticker only: an error, and nothing was read or solved. *)
Lemma invalid_input_stops_before_any_solve_witness :
  page_ascii solver_at_start flat_statistics "MSFT" 0 365 (1 / 50) 0 1
             true []
  = (st_error "Please enter at least 2 tickers.", []).
Proof.
  refine (invalid_input_stops_before_any_solve ascii ascii_dec ","%char
            isspace_ascii upper_ascii solver_at_start flat_statistics
            (list_ascii_of_string "MSFT") 0%Z 365%Z (1 / 50) 0 1 []
            (or_introl _)).
  vm_compute. lia.
Defined.

(** The tables of the page above list the two tickers. *)
Lemma results_are_rounded_percentages_witness :
  exists a b c d fig dopt dmin log',
    page_ascii solver_at_start flat_statistics "a, b" 0 365
               (1 / 50) 0 1 true []
    = (st_results a b c d fig dopt dmin, log')
    /\ map fst dopt = [list_ascii_of_string "A"; list_ascii_of_string "B"].
Proof.
  destruct page_ascii_shows_results
    as (a & b & c & d & fig & dopt & dmin & log' & H).
  exists a, b, c, d, fig, dopt, dmin, log'. split; [exact H|].
  destruct (results_are_rounded_percentages ascii ascii_dec ","%char
              isspace_ascii upper_ascii solver_at_start flat_statistics
              _ _ _ _ _ _ _ _ _ _ _ _ _ _ _ H)
    as (mu & covar & log1 & w0 & ms & mv & rmax & smax & rmin & smin
        & Hl & _ & _ & _ & _ & _ & _ & _ & _ & _ & _ & Hk & _).
  rewrite Hk. rewrite parse_two_tickers in Hl.
  injection Hl as <- _ _. reflexivity.
Defined.

End PageRuns.

(* ------------------------------------------------------------------ *)
(** * Loading the statistics *)

Module DataFacts.
Import Np LoadData Examples.

Section Facts.

Variable asset : Type.
Variable stooq_statistics :
  list asset -> Z -> Z -> res (option (Series asset * DataFrame)).

(** X1.  [get_data] rejects an empty ticker list or a start date not before
    the end date without reading anything, and reports the empty ticker
    list first, whatever the dates. *)
Theorem get_data_rejects_arguments (stocks : list asset) (start end_ : Z)
    (log : list (event asset)) :
  stocks = [] \/ (end_ <= start)%Z ->
  get_data asset stooq_statistics stocks start end_ log
  = (Raise (ValueError
              (match stocks with
               | [] => "At least one ticker is required."
               | _ :: _ => "Start date must be earlier than end date."
               end)%string), log).
Proof.
  intros H. unfold get_data. destruct stocks as [|s stocks]; [reflexivity|].
  destruct H as [H|H]; [discriminate|].
  replace (start >=? end_)%Z with true
    by (symmetry; apply Z.geb_le; exact H).
  reflexivity.
Qed.

(** X2.  [get_data] returns statistics exactly when the ticker list is not
    empty, the start date is before the end date and the data source
    delivers a non-empty table; it has then read the source once. *)
Theorem get_data_returns_iff (stocks : list asset) (start end_ : Z)
    (log log' : list (event asset)) mean_return covar :
  get_data asset stooq_statistics stocks start end_ log
    = (Ok (mean_return, covar), log')
  <-> stocks <> [] /\ (start < end_)%Z
      /\ stooq_statistics stocks start end_ = Ok (Some (mean_return, covar))
      /\ log' = (log ++ [Fetch stocks start end_])%list.
Proof.
  unfold get_data. destruct stocks as [|s stocks].
  - split; [discriminate | intros [H _]; congruence].
  - destruct (start >=? end_)%Z eqn:Hd.
    + apply Z.geb_le in Hd.
      split; [discriminate | intros (_ & H & _); lia].
    + assert (Hlt : (start < end_)%Z).
      { destruct (Z.geb_spec start end_); [discriminate | lia]. }
      unfold bind, emit, lift, raise, ret.
      destruct (stooq_statistics (s :: stocks) start end_)
        as [[[m c]|]|e]; split; intros H;
        try discriminate;
        try (destruct H as (_ & _ & H & _); discriminate).
      * inversion H; subst. repeat split; auto. discriminate.
      * destruct H as (_ & _ & H & ->). inversion H; subst. reflexivity.
Qed.

(** X3.  With valid arguments [get_data] reads the source exactly once; an
    empty table of returns becomes a [ValueError], and an exception of
    the reader passes through unchanged. *)
Theorem get_data_after_reading (stocks : list asset) (start end_ : Z)
    (log : list (event asset)) :
  stocks <> [] -> (start < end_)%Z ->
  snd (get_data asset stooq_statistics stocks start end_ log)
    = (log ++ [Fetch stocks start end_])%list
  /\ (stooq_statistics stocks start end_ = Ok None ->
      fst (get_data asset stooq_statistics stocks start end_ log)
      = Raise (ValueError
                 "No return data available for the selected inputs."))
  /\ (forall e, stooq_statistics stocks start end_ = Raise e ->
      fst (get_data asset stooq_statistics stocks start end_ log)
      = Raise e).
Proof.
  intros Hne Hlt. unfold get_data.
  destruct stocks as [|s stocks]; [congruence|].
  replace (start >=? end_)%Z with false
    by (symmetry; destruct (Z.geb_spec start end_); [lia | reflexivity]).
  unfold bind, emit, lift, raise, ret.
  destruct (stooq_statistics (s :: stocks) start end_) as [[[m c]|]|e];
    cbn [fst snd]; repeat split; intros; try discriminate; congruence.
Qed.

End Facts.

(** No ticker and a degenerate window: the ticker error is reported. *)
Lemma get_data_rejects_arguments_witness :
  get_data nat (fun _ _ _ => Ok None) [] 5 5 []
  = (Raise (ValueError "At least one ticker is required."), []).
Proof.
  apply (get_data_rejects_arguments nat (fun _ _ _ => Ok None) [] 5 5 []).
  left. reflexivity.
Defined.

(** A source without data, read once. *)
Lemma get_data_after_reading_witness :
  snd (get_data nat (fun _ _ _ => Ok None) [1%nat; 2%nat] 0 365 [])
  = [Fetch [1%nat; 2%nat] 0 365].
Proof.
  refine (proj1 (get_data_after_reading nat (fun _ _ _ => Ok None)
                   [1%nat; 2%nat] 0 365 [] _ _)).
  - discriminate.
  - lia.
Defined.

End DataFacts.

(* ------------------------------------------------------------------ *)
(** * More on the performance model and the objectives *)

Module PerformanceFacts.
Import Np Spec NpFacts LoadData Performance Examples.

Lemma mul_scal_r c a : forall b,
  Np.mul a (map (Rmult c) b) = map (Rmult c) (Np.mul a b).
Proof.
  induction a as [|x a IH]; intros [|y b]; simpl; try reflexivity.
  rewrite IH. f_equal. lra.
Qed.

Lemma mul_scal_l c a : forall b,
  Np.mul (map (Rmult c) a) b = map (Rmult c) (Np.mul a b).
Proof.
  induction a as [|x a IH]; intros [|y b]; simpl; try reflexivity.
  rewrite IH. f_equal. lra.
Qed.

Lemma dot_scal_r c a b : dot a (map (Rmult c) b) = c * dot a b.
Proof. unfold dot. rewrite mul_scal_r, <- sum_scal. reflexivity. Qed.

Lemma dot_scal_l c a b : dot (map (Rmult c) a) b = c * dot a b.
Proof. unfold dot. rewrite mul_scal_l, <- sum_scal. reflexivity. Qed.

Lemma matvec_scal c m w :
  matvec m (map (Rmult c) w) = map (Rmult c) (matvec m w).
Proof.
  unfold matvec. rewrite map_map. apply map_ext. intros row.
  apply dot_scal_r.
Qed.

Lemma sqrt_252_pos : 0 < sqrt TRADING_DAYS.
Proof. apply sqrt_lt_R0. unfold TRADING_DAYS. lra. Qed.

Section Facts.

Variable asset : Type.


Lemma std_cases (w : list R) (mu : Series asset)
    (sigma : DataFrame) (r : R) (std : float64) :
  port_performance asset w mu sigma = Ok (r, std) ->
  (dot w (matvec sigma w) < 0 /\ std = NaN)
  \/ (0 <= dot w (matvec sigma w)
      /\ exists s, std = Num s /\ 0 <= s
                   /\ s = sqrt (dot w (matvec sigma w)) * sqrt 252).
Proof.
  intros H. unfold port_performance in H.
  destruct (shapes_match asset w mu sigma); [|discriminate].
  injection H as _ <-.
  destruct (Rlt_le_dec (dot w (matvec sigma w)) 0) as [Hq|Hq].
  - left. split; [exact Hq|]. rewrite (np_sqrt_neg _ Hq). reflexivity.
  - right. split; [exact Hq|].
    rewrite (np_sqrt_nonneg _ Hq), (np_sqrt_nonneg TRADING_DAYS)
      by (unfold TRADING_DAYS; lra).
    eexists. split; [reflexivity|]. split; [|reflexivity].
    apply Rmult_le_pos; apply sqrt_pos.
Qed.


(** X6.  Scaling the weights by [c] scales the return by [c] and a numeric
    volatility by [|c|]: leverage multiplies both, a short position
    reverses the return only. *)
Theorem performance_scales (c : R) (w : list R) (mu : Series asset)
    (sigma : DataFrame) (r s : R) :
  port_performance asset w mu sigma = Ok (r, Num s) ->
  port_performance asset (map (Rmult c) w) mu sigma
  = Ok (c * r, Num (Rabs c * s)).
Proof.
  intros H.
  pose proof (port_performance_ok_inv asset _ _ _ _ H) as Hshape.
  destruct (std_cases w mu sigma r (Num s) H) as [[_ E]|[Hq Hs]];
    [discriminate|].
  destruct Hs as (s' & Es & _ & Hs'). injection Es as <-.
  unfold port_performance in *.
  assert (Hshape' : shapes_match asset (map (Rmult c) w) mu sigma = true).
  { unfold shapes_match in *. rewrite length_map. exact Hshape. }
  rewrite Hshape'. rewrite Hshape in H. injection H as Hr _.
  rewrite mul_scal_r, <- sum_scal, matvec_scal, dot_scal_r, dot_scal_l.
  assert (Hq' : 0 <= c * (c * dot w (matvec sigma w))).
  { rewrite <- Rmult_assoc. apply Rmult_le_pos; [nra | exact Hq]. }
  rewrite (np_sqrt_nonneg _ Hq'), (np_sqrt_nonneg TRADING_DAYS)
    by (unfold TRADING_DAYS; lra).
  cbn [fmul].
  assert (E1 : c * Np.sum (Np.mul (map snd mu) w) * TRADING_DAYS = c * r)
    by (rewrite <- Hr; lra).
  assert (E2 : sqrt (c * (c * dot w (matvec sigma w))) * sqrt TRADING_DAYS
               = Rabs c * s).
  { rewrite <- Rmult_assoc, sqrt_mult by (try nra; exact Hq).
    replace (c * c) with (Rsqr c) by reflexivity.
    rewrite sqrt_Rsqr_abs, Hs'. unfold TRADING_DAYS. lra. }
  rewrite E1, E2. reflexivity.
Qed.

End Facts.

End PerformanceFacts.

(* ------------------------------------------------------------------ *)
(** * The Sharpe objective and the problems handed to the solver *)

Module ObjectiveFacts.
Import Np Spec NpFacts LoadData Performance Pipeline Examples.
Import PerformanceFacts.

Lemma sum_repeat a n : Np.sum (repeat a n) = INR n * a.
Proof.
  induction n as [|n IH]; [simpl; lra|].
  rewrite S_INR. cbn [repeat Np.sum]. rewrite IH. lra.
Qed.

Lemma Forall_repeat {A} (P : A -> Prop) a n :
  n <> O -> (Forall P (repeat a n) <-> P a).
Proof.
  intros Hn. split.
  - destruct n; [congruence|]. intros H. inversion H; assumption.
  - intros H. apply Forall_forall. intros y Hy.
    apply repeat_spec in Hy. subst. exact H.
Qed.

Lemma Forall2_repeat_r {A B} (P : A -> B -> Prop) l b n :
  Forall2 P l (repeat b n)
  <-> List.length l = n /\ Forall (fun a => P a b) l.
Proof.
  revert n. induction l as [|a l IH]; intros [|n]; simpl; split;
    try (intros H; inversion H; fail);
    try (intros [H _]; discriminate).
  - split; constructor.
  - constructor.
  - intros H. inversion H; subst. apply IH in H5 as [Hl Hr].
    split; [congruence | constructor; assumption].
  - intros [Hl Hr]. inversion Hr; subst.
    constructor; [assumption|]. apply IH. split; [congruence | assumption].
Qed.

Lemma sum_between lo hi w :
  Forall (fun wi => lo <= wi <= hi) w ->
  INR (List.length w) * lo <= Np.sum w <= INR (List.length w) * hi.
Proof.
  induction 1 as [|wi w Hwi _ IH].
  - simpl. lra.
  - cbn [List.length Np.sum]. rewrite S_INR. lra.
Qed.

Section Facts.

Variable asset : Type.
Variable minimize : Problem -> res OptimizeResult.


(** X8.  On a volatility [s] above the tolerance the Sharpe objective is the
    number [-((ret - rf) / s)]: it grows with the risk-free rate, and it
    is at most zero exactly when the return reaches the risk-free
    rate. *)
Theorem negative_sharpe_grows_with_rate (w : list R) (mu : Series asset)
    (sigma : DataFrame) (rf1 rf2 ret s : R) :
  port_performance asset w mu sigma = Ok (ret, Num s) ->
  atol < s -> rf1 <= rf2 ->
  negative_sharpe asset w mu sigma rf1 = Ok (Num (- ((ret - rf1) / s)))
  /\ negative_sharpe asset w mu sigma rf2 = Ok (Num (- ((ret - rf2) / s)))
  /\ - ((ret - rf1) / s) <= - ((ret - rf2) / s)
  /\ (- ((ret - rf1) / s) <= 0 <-> rf1 <= ret).
Proof.
  intros H Hs Hrf. pose proof atol_pos as Ha.
  assert (Hc : isclose (Num s) (Num 0) = false).
  { destruct (isclose (Num s) (Num 0)) eqn:Hc; [|reflexivity].
    apply isclose_zero in Hc. destruct Hc as (s' & E & Hle).
    injection E as <-. rewrite Rabs_right in Hle by lra. lra. }
  assert (Hv : forall rf, negative_sharpe asset w mu sigma rf
                          = Ok (Num (- ((ret - rf) / s)))).
  { intros rf. unfold negative_sharpe. rewrite H. cbn [rbind].
    rewrite Hc. cbn [fdiv].
    destruct (Req_dec_T s 0); [lra | reflexivity]. }
  assert (Hinv : 0 < / s) by (apply Rinv_0_lt_compat; lra).
  repeat split; try apply Hv; unfold Rdiv.
  - nra.
  - intros Hle. nra.
  - intros Hle. nra.
Qed.

(** X9.  The start handed to the solver has one weight [1/N] per asset and
    meets the budget constraint; the three problems carry one pair of
    bounds per asset. *)
Theorem start_meets_budget (mu : Series asset) (sigma : DataFrame)
    (rf t : R) (cs : R * R) (w0 : list R) :
  equal_weights (List.length mu) = Ok w0 ->
  List.length w0 = List.length mu
  /\ Forall (fun wi => wi = 1 / INR (List.length mu)) w0
  /\ budget w0 = Ok 0
  /\ List.length (bounds (max_sharpe_problem asset mu sigma rf cs w0))
     = List.length mu
  /\ List.length (bounds (min_vol_problem asset mu sigma cs w0))
     = List.length mu
  /\ List.length (bounds (frontier_problem asset mu sigma t cs w0))
     = List.length mu.
Proof.
  intros Hw. destruct (equal_weights_inv _ _ Hw) as [Hn ->].
  split; [apply repeat_length|].
  split; [apply Forall_forall; intros y Hy; apply repeat_spec in Hy;
          exact Hy|].
  split.
  - unfold budget. rewrite sum_repeat. f_equal. field.
    apply not_0_INR. exact Hn.
  - cbn [bounds max_sharpe_problem min_vol_problem frontier_problem].
    rewrite !repeat_length. auto.
Qed.

(** X10.  The bounds that the page accepts need not leave a feasible
    portfolio: weights within the bounds of a problem that meet its
    budget constraint exist exactly when [N * lower <= 1 <= N * upper],
    which is also exactly when the equal-weight start is within the
    bounds. *)
Theorem budget_within_bounds_iff (mu : Series asset) (sigma : DataFrame)
    (lower upper : R) (w0 : list R) :
  equal_weights (List.length mu) = Ok w0 ->
  let p := min_vol_problem asset mu sigma (lower, upper) w0 in
  let n := INR (List.length mu) in
  ((exists w, budget w = Ok 0
              /\ Forall2 (fun wi b => fst b <= wi <= snd b) w (bounds p))
   <-> n * lower <= 1 <= n * upper)
  /\ (Forall2 (fun wi b => fst b <= wi <= snd b) (x0 p) (bounds p)
      <-> n * lower <= 1 <= n * upper).
Proof.
  intros Hw p n. destruct (equal_weights_inv _ _ Hw) as [Hn ->].
  subst p n. cbn [bounds x0 min_vol_problem].
  assert (Hpos : 0 < INR (List.length mu)) by (apply lt_0_INR; lia).
  assert (Hstart :
    Forall2 (fun wi b => fst b <= wi <= snd b)
            (repeat (1 / INR (List.length mu)) (List.length mu))
            (repeat (lower, upper) (List.length mu))
    <-> INR (List.length mu) * lower <= 1 <= INR (List.length mu) * upper).
  { rewrite Forall2_repeat_r, repeat_length. cbn [fst snd].
    rewrite (Forall_repeat _ _ _ Hn).
    assert (E : INR (List.length mu) * (1 / INR (List.length mu)) = 1)
      by (field; lra).
    split.
    - intros [_ [H1 H2]]. split.
      + apply (Rmult_le_compat_l _ _ _ (Rlt_le _ _ Hpos)) in H1. lra.
      + apply (Rmult_le_compat_l _ _ _ (Rlt_le _ _ Hpos)) in H2. lra.
    - intros [H1 H2]. split; [reflexivity|]. split.
      + apply (Rmult_le_reg_l _ _ _ Hpos). lra.
      + apply (Rmult_le_reg_l _ _ _ Hpos). lra. }
  split; [|exact Hstart].
  split.
  - intros (w & Hb & Hin).
    apply Forall2_repeat_r in Hin as [Hlen Hin]. cbn [fst snd] in Hin.
    unfold budget in Hb. injection Hb as Hb.
    pose proof (sum_between lower upper w Hin) as Hsum.
    rewrite Hlen in Hsum. lra.
  - intros H. exists (repeat (1 / INR (List.length mu)) (List.length mu)).
    split; [|apply Hstart; exact H].
    unfold budget. rewrite sum_repeat. f_equal. field. lra.
Qed.

(** X11.  Without any asset every entry point of the core raises
    [ZeroDivisionError] and the solver is not called. *)
Theorem no_asset_no_solve (sigma : DataFrame) (rf t : R) (cs : R * R)
    (log : list (event asset)) :
  max_sharpe_ratio asset minimize [] sigma rf cs log
    = (Raise ZeroDivisionError, log)
  /\ min_portfolio_var asset minimize [] sigma cs log
     = (Raise ZeroDivisionError, log)
  /\ efficient_frontier asset minimize [] sigma t cs log
     = (Raise ZeroDivisionError, log)
  /\ calculated_result asset minimize [] sigma rf cs log
     = (Raise ZeroDivisionError, log)
  /\ ef_graph asset minimize [] sigma rf cs log
     = (Raise ZeroDivisionError, log).
Proof. repeat split. Qed.

End Facts.

End ObjectiveFacts.

(* ------------------------------------------------------------------ *)
(** * More on the runs of the core *)

Module RunFacts.
Import Np Spec NpFacts LoadData Performance Pipeline Grid Examples.

Lemma map_fst_combine {A B} (l : list A) : forall (l' : list B),
  List.length l' = List.length l -> map fst (combine l l') = l.
Proof.
  induction l as [|a l IH]; intros [|b l'] H; simpl in *;
    try discriminate; try reflexivity.
  f_equal. apply IH. congruence.
Qed.

Section Facts.

Variable asset : Type.
Variable minimize : Problem -> res OptimizeResult.

(** The sweep appends solver calls only, at most one per target. *)
Lemma frontier_loop_suffix mu sigma cs :
  forall targets (log log' : list (event asset)) r,
  frontier_loop asset minimize mu sigma cs targets log = (r, log') ->
  exists suffix,
    log' = (log ++ suffix)%list
    /\ Forall (fun ev => exists p, ev = Solve p) suffix
    /\ (List.length suffix <= List.length targets)%nat.
Proof.
  induction targets as [|t rest IH]; intros log log' r H.
  - simpl in H. unfold ret in H. inversion H; subst.
    exists []. rewrite app_nil_r. repeat split; [constructor | simpl; lia].
  - simpl in H. unfold bind at 1 in H.
    destruct (equal_weights (List.length mu)) as [w0|e] eqn:Hw.
    + rewrite (efficient_frontier_run asset minimize mu sigma t cs w0 log Hw)
        in H.
      destruct (minimize (frontier_problem asset mu sigma t cs w0))
        as [er|e] eqn:Em.
      * unfold bind in H.
        destruct (frontier_loop asset minimize mu sigma cs rest
                    (log ++ [Solve (frontier_problem asset mu sigma t cs w0)]))
          as [[vs|e] l2] eqn:El;
          destruct (IH _ _ _ El) as (suffix & Hs & Hall & Hlen);
          unfold ret in H; inversion H; subst;
          exists (Solve (frontier_problem asset mu sigma t cs w0) :: suffix);
          rewrite <- app_assoc;
          (split; [reflexivity|]);
          (split; [constructor; [eexists; reflexivity | exact Hall]
                  | simpl; lia]).
      * inversion H; subst.
        exists [Solve (frontier_problem asset mu sigma t cs w0)].
        split; [reflexivity|].
        split; [repeat constructor; eexists; reflexivity | simpl; lia].
    + unfold efficient_frontier, bind, lift in H. rewrite Hw in H.
      inversion H; subst. exists []. rewrite app_nil_r.
      repeat split; [constructor | simpl; lia].
Qed.

Lemma returning_run_lengths mu sigma rf cs (log log' : list (event asset))
    out :
  calculated_result asset minimize mu sigma rf cs log = (Ok out, log') ->
  List.length (target_returns out) = 20%nat
  /\ List.length (ef_vols out) = 20%nat.
Proof.
  intros H.
  destruct (calculated_result_ok_inv asset minimize _ _ _ _ _ _ _ H)
    as (w0 & ms & mv & rmax & smax & rmin & smin & vols
        & Hw & _ & _ & _ & _ & _ & _ & Hfl & ->).
  destruct (frontier_loop_ok asset minimize mu sigma cs w0 Hw _ _ _ _ Hfl)
    as [_ Hall].
  cbn [target_returns ef_vols assemble].
  split; [apply linspace_length|].
  rewrite <- (Forall2_length Hall). apply linspace_length.
Qed.

(** X12.  A run that returns has called the solver 22 times, holds 20 targets
    and 20 frontier entries, and its two allocation tables list the
    assets of the statistics, one row each, in their order. *)
Theorem returning_run_shape mu sigma rf cs (log log' : list (event asset))
    out :
  calculated_result asset minimize mu sigma rf cs log = (Ok out, log') ->
  List.length log' = (List.length log + 22)%nat
  /\ List.length (target_returns out) = 20%nat
  /\ List.length (ef_vols out) = 20%nat
  /\ map fst (optimal_allocation out) = map fst mu
  /\ map fst (minimal_allocation out) = map fst mu.
Proof.
  intros H.
  destruct (calculated_result_ok_inv asset minimize _ _ _ _ _ _ _ H)
    as (w0 & ms & mv & rmax & smax & rmin & smin & vols
        & Hw & Hms & Hmv & Sms & Smv & Pms & Pmv & Hfl & ->).
  destruct (frontier_loop_ok asset minimize mu sigma cs w0 Hw _ _ _ _ Hfl)
    as [-> Hall].
  cbn [target_returns ef_vols optimal_allocation minimal_allocation assemble].
  destruct (shapes_match_inv asset _ _ _
              (port_performance_ok_inv asset _ _ _ _ Pms)) as [Lms _].
  destruct (shapes_match_inv asset _ _ _
              (port_performance_ok_inv asset _ _ _ _ Pmv)) as [Lmv _].
  split.
  { rewrite !length_app, length_map, linspace_length. simpl. lia. }
  split; [apply linspace_length|].
  split.
  { rewrite <- (Forall2_length Hall). apply linspace_length. }
  unfold allocation_frame.
  split; apply map_fst_combine; rewrite length_map; congruence.
Qed.

(** X13.  An exception of the solver in a named solve is what the run raises:
    in the Maximum Sharpe solve, before the Minimum Volatility solve is
    attempted; in the Minimum Volatility solve, even when the Maximum
    Sharpe outcome had not converged. *)
Theorem solver_exception_propagates mu sigma rf cs
    (log : list (event asset)) w0 e :
  equal_weights (List.length mu) = Ok w0 ->
  let pms := max_sharpe_problem asset mu sigma rf cs w0 in
  let pmv := min_vol_problem asset mu sigma cs w0 in
  (minimize pms = Raise e ->
   calculated_result asset minimize mu sigma rf cs log
   = (Raise e, (log ++ [Solve pms])%list))
  /\ (forall ms, minimize pms = Ok ms -> minimize pmv = Raise e ->
      calculated_result asset minimize mu sigma rf cs log
      = (Raise e, (log ++ [Solve pms; Solve pmv])%list)).
Proof.
  intros Hw pms pmv. subst pms pmv. split.
  - intros Hms.
    rewrite (calculated_result_run asset minimize mu sigma rf cs w0 log Hw).
    cbv zeta. rewrite Hms. reflexivity.
  - intros ms Hms Hmv.
    rewrite (calculated_result_run asset minimize mu sigma rf cs w0 log Hw).
    cbv zeta. rewrite Hms, Hmv. reflexivity.
Qed.

(** X14.  Converged weights of the wrong length make the run raise the shape
    error after the two named solves, before any frontier solve. *)
Theorem wrong_length_weights_raise mu sigma rf cs
    (log : list (event asset)) w0 ms mv :
  equal_weights (List.length mu) = Ok w0 ->
  minimize (max_sharpe_problem asset mu sigma rf cs w0) = Ok ms ->
  minimize (min_vol_problem asset mu sigma cs w0) = Ok mv ->
  success ms = true -> success mv = true ->
  List.length (x ms) <> List.length mu
  \/ List.length (x mv) <> List.length mu ->
  calculated_result asset minimize mu sigma rf cs log
  = (Raise ShapeMismatch,
     (log ++ [Solve (max_sharpe_problem asset mu sigma rf cs w0);
              Solve (min_vol_problem asset mu sigma cs w0)])%list).
Proof.
  intros Hw Hms Hmv Sms Smv Hlen.
  rewrite (calculated_result_run asset minimize mu sigma rf cs w0 log Hw).
  cbv zeta. rewrite Hms, Hmv, Sms, Smv. cbn [negb].
  assert (Hbad : forall w, List.length w <> List.length mu ->
            port_performance asset w mu sigma = Raise ShapeMismatch).
  { intros w Hw'. apply port_performance_raises.
    destruct (shapes_match asset w mu sigma) eqn:E; [|reflexivity].
    apply shapes_match_inv in E. destruct E as [E _]. congruence. }
  destruct (port_performance asset (x ms) mu sigma) as [[rmax smax]|e] eqn:Pms.
  - destruct Hlen as [Hlen|Hlen].
    + rewrite (Hbad _ Hlen) in Pms. discriminate.
    + rewrite (Hbad _ Hlen). reflexivity.
  - destruct (shapes_match asset (x ms) mu sigma) eqn:E.
    + unfold port_performance in Pms. rewrite E in Pms. discriminate.
    + rewrite (port_performance_raises asset _ _ _ E) in Pms.
      injection Pms as <-. reflexivity.
Qed.

Lemma run_appends_solver_calls mu sigma rf cs
    (log log' : list (event asset)) r :
  calculated_result asset minimize mu sigma rf cs log = (r, log') ->
  exists suffix,
    log' = (log ++ suffix)%list
    /\ Forall (fun ev => exists p, ev = Solve p) suffix
    /\ (List.length suffix <= 22)%nat.
Proof.
  intros H.
  assert (Hsolve : forall p, exists q, @Solve asset p = Solve q)
    by (intros p; exists p; reflexivity).
  destruct (equal_weights (List.length mu)) as [w0|e] eqn:Hw.
  2:{ destruct mu; [|discriminate].
      rewrite calculated_result_no_asset in H. inversion H; subst.
      exists []. rewrite app_nil_r.
      repeat split; [constructor | simpl; lia]. }
  rewrite (calculated_result_run asset minimize mu sigma rf cs w0 log Hw) in H.
  cbv zeta in H.
  set (pms := max_sharpe_problem asset mu sigma rf cs w0) in *.
  set (pmv := min_vol_problem asset mu sigma cs w0) in *.
  assert (Htwo : exists suffix,
            (log ++ [Solve pms; Solve pmv])%list = (log ++ suffix)%list
            /\ Forall (fun ev => exists p, ev = Solve p) suffix
            /\ (List.length suffix <= 22)%nat).
  { exists [Solve pms; Solve pmv].
    repeat split; [repeat constructor; apply Hsolve | simpl; lia]. }
  destruct (minimize pms) as [ms|e].
  2:{ inversion H; subst. exists [Solve pms].
      repeat split; [repeat constructor; apply Hsolve | simpl; lia]. }
  destruct (minimize pmv) as [mv|e].
  2:{ inversion H; subst. exact Htwo. }
  destruct (success ms); cbn [negb] in H.
  2:{ inversion H; subst. exact Htwo. }
  destruct (success mv); cbn [negb] in H.
  2:{ inversion H; subst. exact Htwo. }
  destruct (port_performance asset (x ms) mu sigma) as [[rmax smax]|e].
  2:{ inversion H; subst. exact Htwo. }
  destruct (port_performance asset (x mv) mu sigma) as [[rmin smin]|e].
  2:{ inversion H; subst. exact Htwo. }
  destruct (frontier_loop asset minimize mu sigma cs (linspace rmin rmax 20) _)
    as [r3 log3] eqn:Efl.
  destruct (frontier_loop_suffix mu sigma cs _ _ _ _ Efl)
    as (suffix & Hs & Hall & Hlen).
  rewrite linspace_length in Hlen.
  exists ([Solve pms; Solve pmv] ++ suffix)%list.
  assert (log' = log3) by (destruct r3; inversion H; reflexivity).
  subst log' log3. rewrite <- app_assoc.
  split; [reflexivity|]. split.
  - repeat constructor; try apply Hsolve. exact Hall.
  - simpl. lia.
Qed.

(** X15.  Whatever its outcome, a run of the core only appends to the log, at
    most 22 events, all of them solver calls: it never reads the data
    source. *)
Theorem core_only_calls_solver mu sigma rf cs
    (log log' : list (event asset)) r :
  calculated_result asset minimize mu sigma rf cs log = (r, log') ->
  exists suffix,
    log' = (log ++ suffix)%list
    /\ Forall (fun ev => exists p, ev = Solve p) suffix
    /\ (List.length suffix <= 22)%nat.
Proof. apply run_appends_solver_calls. Qed.









(** X16.  [ef_graph] raises exactly what [calculated_result] raises, and
    otherwise returns three traces, named and ordered as in the legend:
    one marker per named portfolio at its rounded volatility and return,
    and the frontier with 20 abscissas and the 20 rounded targets as
    ordinates. *)
Theorem ef_graph_figure mu sigma rf cs (log log' : list (event asset)) :
  (forall e,
     ef_graph asset minimize mu sigma rf cs log = (Raise e, log')
     <-> calculated_result asset minimize mu sigma rf cs log
         = (Raise e, log'))
  /\ forall fig,
       ef_graph asset minimize mu sigma rf cs log = (Ok fig, log') ->
       exists out curve,
         calculated_result asset minimize mu sigma rf cs log = (Ok out, log')
         /\ map name fig
            = ["Maximum Sharpe Ratio"; "Minimum Volatility";
               "Efficient Frontier"]%string
         /\ map plotted (firstn 2 fig)
            = [[(opt_std out, opt_return out)];
               [(minimal_std out, minimal_return out)]]
         /\ nth_error fig 2 = Some curve
         /\ List.length (xs curve) = 20%nat
         /\ ys curve = map (fun t => round2R (t * 100)) (target_returns out)
         /\ List.length (ys curve) = 20%nat.
Proof.
  unfold ef_graph, bind, ret.
  destruct (calculated_result asset minimize mu sigma rf cs log)
    as [[out|e0] l] eqn:Hc.
  - split.
    + intros e. split; discriminate.
    + intros fig H. inversion H; subst.
      destruct (returning_run_lengths mu sigma rf cs log log' out Hc)
        as [Ht Hv].
      exists out, (ef_curve (ef_vols out) (target_returns out)).
      repeat split; cbn [xs ys ef_curve]; rewrite ?length_map; assumption.
  - split.
    + intros e. split; intros H; inversion H; reflexivity.
    + intros fig H. discriminate.
Qed.

End Facts.

(** X17.  The plotted frontier is the list of the entries that are not [nan],
    each with the target it was solved for, as rounded percentages, in
    the order of the sweep. *)
Theorem plotted_frontier (vols : list float64) (targets : list R) :
  plotted (ef_curve vols targets)
  = map (fun p => (round2 (fmul (fst p) (Num 100)),
                   round2R (snd p * 100)))
        (filter (fun p => negb (isnan (fst p))) (combine vols targets)).
Proof.
  unfold plotted. cbn [xs ys ef_curve].
  revert targets. induction vols as [|v vols IH]; intros [|t targets];
    try reflexivity.
  cbn [map combine flat_map filter fst snd].
  rewrite IH. destruct (isnan v); reflexivity.
Qed.

End RunFacts.

(* ------------------------------------------------------------------ *)
(** * The core on concrete inputs *)

Module CoreRuns.
Import Np Spec NpFacts LoadData Performance Pipeline Grid Examples.
Import Named FrontierRuns PerformanceFacts ObjectiveFacts RunFacts.

(** One asset held once: return 252, volatility [sqrt 252]. *)
Lemma unit_portfolio :
  port_performance nat [1] [(1%nat, 1)] [[1]] = Ok (252, Num (sqrt 252)).
Proof.
  unfold port_performance. cbn [shapes_match List.length Nat.eqb forallb andb].
  replace (dot [1] (matvec [[1]] [1])) with 1
    by (unfold matvec; cbn [map]; unfold dot; cbn [Np.mul Np.sum]; ring).
  rewrite (np_sqrt_nonneg 1), (np_sqrt_nonneg TRADING_DAYS), sqrt_1
    by (unfold TRADING_DAYS; lra).
  unfold TRADING_DAYS. cbn [fmul map snd Np.mul Np.sum].
  do 2 f_equal; [lra | f_equal; lra].
Qed.

Lemma sqrt_252_above_tolerance : atol < sqrt 252.
Proof.
  assert (H : sqrt 1 < sqrt 252) by (apply sqrt_lt_1; lra).
  rewrite sqrt_1 in H. unfold atol. lra.
Qed.


(** Twice the unit portfolio: twice the return, twice the volatility. *)
Lemma performance_scales_witness :
  port_performance nat (map (Rmult 2) [1]) [(1%nat, 1)] [[1]]
  = Ok (2 * 252, Num (Rabs 2 * sqrt 252)).
Proof.
  exact (performance_scales nat 2 [1] [(1%nat, 1)] [[1]] 252 (sqrt 252)
           unit_portfolio).
Defined.


(** Risk-free rates 0 and 252 on the unit portfolio. *)
Lemma negative_sharpe_grows_with_rate_witness :
  negative_sharpe nat [1] [(1%nat, 1)] [[1]] 0
    = Ok (Num (- ((252 - 0) / sqrt 252)))
  /\ negative_sharpe nat [1] [(1%nat, 1)] [[1]] 252
     = Ok (Num (- ((252 - 252) / sqrt 252)))
  /\ - ((252 - 0) / sqrt 252) <= - ((252 - 252) / sqrt 252)
  /\ (- ((252 - 0) / sqrt 252) <= 0 <-> 0 <= 252).
Proof.
  apply (negative_sharpe_grows_with_rate nat [1] [(1%nat, 1)] [[1]]
           0 252 252 (sqrt 252) unit_portfolio sqrt_252_above_tolerance).
  lra.
Defined.

Lemma start_meets_budget_witness :
  budget [1 / INR 2; 1 / INR 2] = Ok 0.
Proof.
  exact (proj1 (proj2 (proj2
    (start_meets_budget nat two_returns identity2 0 0 (0, 1)
       [1 / INR 2; 1 / INR 2] eq_refl)))).
Defined.

(** Two assets with bounds from 0.6 to 1: no feasible portfolio. *)
Lemma budget_within_bounds_iff_witness :
  (exists w, budget w = Ok 0
             /\ Forall2 (fun wi b => fst b <= wi <= snd b) w
                  (bounds (min_vol_problem nat two_returns identity2
                             (3 / 5, 1) [1 / INR 2; 1 / INR 2])))
  <-> INR 2 * (3 / 5) <= 1 <= INR 2 * 1.
Proof.
  exact (proj1 (budget_within_bounds_iff nat two_returns identity2
                  (3 / 5) 1 [1 / INR 2; 1 / INR 2] eq_refl)).
Defined.

Lemma returning_run_shape_witness :
  exists out log',
    calculated_result nat solver_at_start flat_returns identity2
                      0 (0, 1) [] = (Ok out, log')
    /\ List.length log' = 22%nat.
Proof.
  destruct (solver_at_start_runs 0) as [vols [log' H]].
  eexists. exists log'. split; [exact H|].
  exact (proj1 (returning_run_shape nat solver_at_start _ _ _ _ _ _ _ H)).
Defined.

Lemma core_only_calls_solver_witness :
  exists log' suffix,
    snd (calculated_result nat solver_no_convergence flat_returns identity2
           0 (0, 1) []) = log'
    /\ log' = ([] ++ suffix)%list
    /\ Forall (fun ev => exists p, ev = @Solve nat p) suffix.
Proof.
  destruct (calculated_result nat solver_no_convergence flat_returns
              identity2 0 (0, 1) []) as [r log'] eqn:H.
  destruct (core_only_calls_solver nat solver_no_convergence _ _ _ _ _ _ _ H)
    as (suffix & Hs & Hall & _).
  exists log', suffix. repeat split; assumption.
Defined.

(** A solver that raises. *)
Lemma solver_exception_propagates_witness :
  calculated_result nat (fun _ => Raise ZeroDivisionError) flat_returns
                    identity2 0 (0, 1) []
  = (Raise ZeroDivisionError,
     [Solve (max_sharpe_problem nat flat_returns identity2 0 (0, 1)
                                [1 / INR 2; 1 / INR 2])]).
Proof.
  apply (proj1 (solver_exception_propagates nat
                  (fun _ => Raise ZeroDivisionError) flat_returns identity2
                  0 (0, 1) [] [1 / INR 2; 1 / INR 2] ZeroDivisionError
                  eq_refl)).
  reflexivity.
Defined.

(** A solver that answers with no weights at all. *)
Lemma wrong_length_weights_raise_witness :
  fst (calculated_result nat
         (fun _ => Ok {| x := []; success := true; message := "done";
                         fun_ := Num 0 |})
         flat_returns identity2 0 (0, 1) [])
  = Raise ShapeMismatch.
Proof.
  rewrite (wrong_length_weights_raise nat
             (fun _ => Ok {| x := []; success := true; message := "done";
                             fun_ := Num 0 |})
             flat_returns identity2 0 (0, 1) [] [1 / INR 2; 1 / INR 2]
             _ _ eq_refl eq_refl eq_refl eq_refl eq_refl).
  - reflexivity.
  - left. simpl. lia.
Defined.

End CoreRuns.

(* ------------------------------------------------------------------ *)
(** * More on the ticker parser *)

Module TickerFacts.
Import Spec App Tickers.

Section Facts.

Variable char : Type.
Variable char_eq_dec : forall a b : char, {a = b} + {a <> b}.
Variable comma : char.
Variable isspace : char -> bool.
Variable upper : list char -> list char.

#[local] Abbreviation str := (list char).
#[local] Abbreviation str_eq_dec := (App.str_eq_dec char char_eq_dec).
#[local] Abbreviation split := (App.split char char_eq_dec comma).
#[local] Abbreviation join := (App.join char comma).
#[local] Abbreviation lstrip := (App.lstrip char isspace).
#[local] Abbreviation rstrip := (App.rstrip char isspace).
#[local] Abbreviation strip := (App.strip char isspace).
#[local] Abbreviation parse :=
  (App._parse_tickers char char_eq_dec comma isspace upper).

Lemma split_count (s : str) :
  List.length (split s) = S (count_occ char_eq_dec s comma).
Proof.
  induction s as [|c s IH]; [reflexivity|].
  cbn [App.split count_occ].
  destruct (char_eq_dec c comma) as [E|E].
  - cbn [List.length]. rewrite IH. reflexivity.
  - pose proof (split_nonempty char char_eq_dec comma s) as Hne.
    destruct (split s) as [|tok rest]; [congruence|].
    cbn [List.length] in *. exact IH.
Qed.

Lemma first_occurrences_length (l : list str) :
  (List.length (first_occurrences str_eq_dec l) <= List.length l)%nat.
Proof.
  induction l as [|a l IH]; simpl; [lia|].
  pose proof (remove_length_le str_eq_dec
                (first_occurrences str_eq_dec l) a). lia.
Qed.

Lemma parse_count (raw : str) :
  (List.length (parse raw) <= S (count_occ char_eq_dec raw comma))%nat.
Proof.
  unfold _parse_tickers.
  rewrite (dict_fromkeys_first_occurrences char char_eq_dec comma isspace
             upper).
  pose proof (first_occurrences_length
                (map (fun t => upper (strip t))
                     (filter (fun t => truthy char (strip t)) (split raw))))
    as H1.
  pose proof (filter_length_le (fun t => truthy char (strip t)) (split raw))
    as H2.
  rewrite length_map in H1. rewrite split_count in H2. lia.
Qed.

Lemma parse_members (raw t : str) :
  In t (parse raw)
  <-> exists tok, In tok (split raw) /\ strip tok <> []
                  /\ t = upper (strip tok).
Proof.
  unfold _parse_tickers.
  rewrite (dict_fromkeys_first_occurrences char char_eq_dec comma isspace
             upper).
  rewrite (first_occurrences_In char char_eq_dec comma isspace upper).
  rewrite in_map_iff. split.
  - intros [tok [<- Hin]]. apply filter_In in Hin. destruct Hin as [Hin Ht].
    exists tok. split; [exact Hin|]. split; [|reflexivity].
    intros Hnil. rewrite Hnil in Ht. discriminate.
  - intros [tok [Hin [Hne ->]]]. exists tok. split; [reflexivity|].
    apply filter_In. split; [exact Hin|].
    destruct (strip tok); [contradiction | reflexivity].
Qed.

(** X18.  The tokens number one more than the commas of the text, and the
    parser returns at most that many tickers. *)
Theorem tickers_at_most_commas_plus_one (raw : str) :
  List.length (split raw) = S (count_occ char_eq_dec raw comma)
  /\ (List.length (parse raw) <= S (count_occ char_eq_dec raw comma))%nat.
Proof. split; [apply split_count | apply parse_count]. Qed.

Lemma lstrip_fixed (s : str) :
  (forall c rest, s = c :: rest -> isspace c = false) -> lstrip s = s.
Proof.
  destruct s as [|c s]; [reflexivity|]. intros H. simpl.
  rewrite (H c s eq_refl). reflexivity.
Qed.

Lemma rstrip_fixed (s : str) :
  (forall c init, s = init ++ [c] -> isspace c = false) -> rstrip s = s.
Proof.
  intros H. unfold App.rstrip. rewrite lstrip_fixed.
  - apply rev_involutive.
  - intros c rest E. apply (H c (rev rest)).
    apply (f_equal (@rev char)) in E. rewrite rev_involutive in E.
    exact E.
Qed.

Lemma strip_fixed (s : str) :
  (forall c rest, s = c :: rest -> isspace c = false) ->
  (forall c init, s = init ++ [c] -> isspace c = false) ->
  strip s = s.
Proof.
  intros Hh Hl. unfold App.strip. rewrite (lstrip_fixed s Hh).
  apply rstrip_fixed, Hl.
Qed.

Lemma lstrip_blank (s : str) : forallb isspace s = true -> lstrip s = [].
Proof.
  induction s as [|c s IH]; [reflexivity|]. simpl.
  destruct (isspace c); [exact IH | discriminate].
Qed.

Lemma strip_blank (s : str) : forallb isspace s = true -> strip s = [].
Proof.
  intros H. unfold App.strip. rewrite (lstrip_blank s H). reflexivity.
Qed.

(** X19.  Stripping is idempotent, leaves alone exactly the strings without
    whitespace at either end, and empties a string of whitespace. *)
Theorem strip_idempotent (s : str) :
  strip (strip s) = strip s
  /\ (strip s = s
      <-> (forall c rest, s = c :: rest -> isspace c = false)
          /\ (forall c init, s = init ++ [c] -> isspace c = false))
  /\ (forallb isspace s = true -> strip s = []).
Proof.
  destruct (strip_spec char isspace s) as (_ & Hh & Hl).
  split; [apply strip_fixed; assumption|].
  split; [|apply strip_blank].
  split.
  - intros E. rewrite E in Hh, Hl. split; assumption.
  - intros [H1 H2]. apply strip_fixed; assumption.
Qed.

Lemma split_chars (P : char -> Prop) (s : str) :
  Forall P s -> Forall (Forall P) (split s).
Proof.
  induction 1 as [|c s Hc _ IH]; [repeat constructor|].
  cbn [App.split]. destruct (char_eq_dec c comma).
  - constructor; [constructor | exact IH].
  - destruct (split s) as [|tok rest]; [repeat constructor; exact Hc|].
    inversion IH; subst. constructor; [constructor|]; assumption.
Qed.

(** X20.  A text of whitespace and commas only, the empty text included,
    yields no ticker. *)
Theorem blank_text_no_ticker (raw : str) :
  Forall (fun c => isspace c = true \/ c = comma) raw -> parse raw = [].
Proof.
  intros H. unfold _parse_tickers.
  replace (filter (fun t => truthy char (strip t)) (split raw))
    with (@nil str); [reflexivity|].
  symmetry.
  pose proof (split_chars _ raw H) as Hchars.
  pose proof (split_no_comma char char_eq_dec comma raw) as Hnc.
  induction (split raw) as [|tok toks IH]; [reflexivity|].
  inversion Hchars; subst. inversion Hnc; subst.
  cbn [filter]. rewrite strip_blank; [cbn [truthy]; apply IH; assumption|].
  apply forallb_forall. intros c Hc.
  rewrite Forall_forall in H2. destruct (H2 c Hc) as [Hs| ->];
    [exact Hs | contradiction].
Qed.

End Facts.

(** Re-entering the parsed tickers.  The case mapping works character
    by character. *)
Section Round_trip.

Variable char : Type.
Variable char_eq_dec : forall a b : char, {a = b} + {a <> b}.
Variable comma : char.
Variable isspace : char -> bool.
Variable up : char -> char.

Hypothesis up_idempotent : forall c, up (up c) = up c.
Hypothesis up_keeps_space : forall c, isspace (up c) = isspace c.
Hypothesis up_makes_no_comma : forall c, up c = comma -> c = comma.

#[local] Abbreviation str := (list char).
#[local] Abbreviation str_eq_dec := (App.str_eq_dec char char_eq_dec).
#[local] Abbreviation split := (App.split char char_eq_dec comma).
#[local] Abbreviation join := (App.join char comma).
#[local] Abbreviation strip := (App.strip char isspace).
#[local] Abbreviation parse :=
  (App._parse_tickers char char_eq_dec comma isspace (map up)).

Lemma split_join (l : list str) :
  l <> [] -> Forall (fun tok => ~ In comma tok) l -> split (join l) = l.
Proof.
  induction l as [|tok rest IH]; [congruence|]. intros _ Hnc.
  inversion Hnc as [|? ? Htok Hrest]; subst.
  assert (Hone : forall t : str, ~ In comma t -> split t = [t]).
  { induction t as [|c t IHt]; [reflexivity|]. intros Hc.
    cbn [App.split]. destruct (char_eq_dec c comma) as [->|_].
    - exfalso. apply Hc. left. reflexivity.
    - rewrite IHt; [reflexivity|]. intros Hin. apply Hc. right. exact Hin. }
  destruct rest as [|tok' rest].
  - cbn [App.join]. apply Hone, Htok.
  - change (join (tok :: tok' :: rest))
      with (tok ++ comma :: join (tok' :: rest)).
    specialize (IH ltac:(discriminate) Hrest).
    clear Hone Hnc. induction tok as [|c tok IHtok].
    + cbn [app App.split]. destruct (char_eq_dec comma comma); [|congruence].
      rewrite IH. reflexivity.
    + cbn [app App.split]. destruct (char_eq_dec c comma) as [->|_].
      * exfalso. apply Htok. left. reflexivity.
      * rewrite IHtok; [reflexivity|].
        intros Hin. apply Htok. right. exact Hin.
Qed.

Lemma first_occurrences_NoDup_id (l : list str) :
  NoDup l -> first_occurrences str_eq_dec l = l.
Proof.
  induction 1 as [|a l Hnin _ IH]; [reflexivity|].
  simpl. rewrite IH, notin_remove by exact Hnin. reflexivity.
Qed.

(** What every parsed ticker looks like. *)
Lemma ticker_shape (raw t : str) :
  In t (parse raw) ->
  t <> [] /\ ~ In comma t /\ map up t = t /\ strip t = t.
Proof.
  intros Hin.
  apply (parse_members char char_eq_dec comma isspace (map up)) in Hin.
  destruct Hin as (tok & Htok & Hne & ->).
  destruct (strip_spec char isspace tok) as ((l & r & E & _) & Hh & Hl).
  pose proof (split_no_comma char char_eq_dec comma raw) as Hnc.
  rewrite Forall_forall in Hnc. specialize (Hnc tok Htok).
  split; [|split; [|split]].
  - destruct (strip tok); [congruence | discriminate].
  - intros Hc. apply in_map_iff in Hc. destruct Hc as (c & Hc & Hin').
    apply up_makes_no_comma in Hc. subst c.
    apply Hnc. rewrite E. apply in_or_app. right.
    apply in_or_app. left. exact Hin'.
  - rewrite map_map. apply map_ext. exact up_idempotent.
  - apply strip_fixed.
    + intros c rest Ec. destruct (strip tok) as [|c' rest'] eqn:Es;
        [discriminate|].
      cbn [map] in Ec. injection Ec as <- _.
      rewrite up_keeps_space. exact (Hh c' rest' eq_refl).
    + intros c init Ec.
      destruct (exists_last (l := strip tok)) as (init' & c' & Es);
        [exact Hne|].
      rewrite Es, map_app in Ec. cbn [map] in Ec.
      apply app_inj_tail in Ec. destruct Ec as [_ <-].
      rewrite up_keeps_space. exact (Hl c' init' Es).
Qed.

(** X21.  Every parsed ticker is non-empty, holds no comma, has no whitespace
    at either end and is left unchanged by uppercasing. *)
Theorem parsed_ticker_is_clean (raw t : str) :
  In t (parse raw) ->
  t <> [] /\ ~ In comma t /\ map up t = t /\ strip t = t.
Proof. apply ticker_shape. Qed.

Lemma map_filter_fixed (f : str -> str) (g : str -> bool) (l : list str) :
  Forall (fun t => g t = true /\ f t = t) l -> map f (filter g l) = l.
Proof.
  induction 1 as [|t l [Hg Hf] _ IH]; [reflexivity|].
  cbn [filter]. rewrite Hg. cbn [map]. rewrite Hf, IH. reflexivity.
Qed.

(** X22.  The parsed tickers, joined by commas and parsed again, are the same
    list: the parser is idempotent on its own output. *)
Theorem parse_round_trip (raw : str) :
  parse (join (parse raw)) = parse raw.
Proof.
  assert (Hall : Forall (fun t => t <> [] /\ ~ In comma t /\ map up t = t
                                  /\ strip t = t) (parse raw)).
  { apply Forall_forall. intros t Ht. exact (ticker_shape raw t Ht). }
  assert (Hnd : NoDup (parse raw)).
  { unfold _parse_tickers.
    rewrite (dict_fromkeys_first_occurrences char char_eq_dec comma isspace
               (map up)).
    apply first_occurrences_NoDup. }
  revert Hall Hnd. generalize (parse raw). intros l Hall Hnd.
  destruct l as [|t0 l0]; [reflexivity|].
  unfold _parse_tickers.
  rewrite split_join.
  - rewrite (map_filter_fixed (fun t => map up (strip t))
               (fun t => truthy char (strip t))).
    + rewrite (dict_fromkeys_first_occurrences char char_eq_dec comma
                 isspace (map up)).
      apply first_occurrences_NoDup_id, Hnd.
    + eapply Forall_impl; [|exact Hall].
      intros t (Hne & _ & Hup & Hs). rewrite Hs. split; [|exact Hup].
      destruct t; [congruence | reflexivity].
  - discriminate.
  - eapply Forall_impl; [|exact Hall]. intros t (_ & Hc & _). exact Hc.
Qed.

End Round_trip.

(** ** ASCII text *)

Lemma upper_ascii_char_idempotent c :
  upper_ascii_char (upper_ascii_char c) = upper_ascii_char c.
Proof. destruct c as [[] [] [] [] [] [] [] []]; reflexivity. Qed.

Lemma upper_ascii_char_keeps_space c :
  isspace_ascii (upper_ascii_char c) = isspace_ascii c.
Proof. destruct c as [[] [] [] [] [] [] [] []]; reflexivity. Qed.

Lemma upper_ascii_char_makes_no_comma c :
  upper_ascii_char c = ","%char -> c = ","%char.
Proof.
  destruct c as [[] [] [] [] [] [] [] []]; intros H;
    try reflexivity; vm_compute in H; discriminate.
Qed.

(** On ASCII text the tickers are clean and the parser is idempotent. *)
Lemma parsed_ticker_is_clean_witness :
  list_ascii_of_string "B" <> []
  /\ ~ In ","%char (list_ascii_of_string "B")
  /\ map upper_ascii_char (list_ascii_of_string "B")
     = list_ascii_of_string "B"
  /\ App.strip ascii isspace_ascii (list_ascii_of_string "B")
     = list_ascii_of_string "B".
Proof.
  apply (parsed_ticker_is_clean ascii ascii_dec ","%char isspace_ascii
           upper_ascii_char upper_ascii_char_idempotent
           upper_ascii_char_keeps_space upper_ascii_char_makes_no_comma
           (list_ascii_of_string "a, b")).
  vm_compute. right. left. reflexivity.
Defined.

Lemma parse_round_trip_witness :
  _parse_tickers ascii ascii_dec ","%char isspace_ascii upper_ascii
    (App.join ascii ","%char
       (_parse_tickers ascii ascii_dec ","%char isspace_ascii upper_ascii
          (list_ascii_of_string " msft ,nvda,, Msft")))
  = _parse_tickers ascii ascii_dec ","%char isspace_ascii upper_ascii
      (list_ascii_of_string " msft ,nvda,, Msft").
Proof.
  exact (parse_round_trip ascii ascii_dec ","%char isspace_ascii
           upper_ascii_char upper_ascii_char_idempotent
           upper_ascii_char_keeps_space upper_ascii_char_makes_no_comma
           (list_ascii_of_string " msft ,nvda,, Msft")).
Defined.

Lemma blank_text_no_ticker_witness :
  _parse_tickers ascii ascii_dec ","%char isspace_ascii upper_ascii
    (list_ascii_of_string " , ,") = [].
Proof.
  apply (blank_text_no_ticker ascii ascii_dec ","%char isspace_ascii
           upper_ascii (list_ascii_of_string " , ,")).
  repeat (apply Forall_cons;
          [first [left; reflexivity | right; reflexivity]|]).
  apply Forall_nil.
Defined.

End TickerFacts.

(* ------------------------------------------------------------------ *)
(** * More on the page *)

Module PageFacts.
Import Np Spec NpFacts LoadData Performance Pipeline Examples App.
Import Page PageRuns RunFacts TickerFacts.

Section Facts.

Variable char : Type.
Variable char_eq_dec : forall a b : char, {a = b} + {a <> b}.
Variable comma : char.
Variable isspace : char -> bool.
Variable upper : list char -> list char.
Variable minimize : Problem -> res OptimizeResult.
Variable stooq_statistics :
  list (App.str char) -> Z -> Z
  -> res (option (Series (App.str char) * DataFrame)).

#[local] Abbreviation str := (App.str char).
#[local] Abbreviation parse :=
  (_parse_tickers char char_eq_dec comma isspace upper).
#[local] Abbreviation run :=
  (page char char_eq_dec comma isspace upper minimize stooq_statistics).
#[local] Abbreviation load :=
  (_load_statistics char stooq_statistics).


Lemma load_ok (tickers : list str) start_date end_date
    (log : list (event str)) mean_return covar :
  tickers <> [] -> (start_date < end_date)%Z ->
  stooq_statistics tickers start_date end_date
    = Ok (Some (mean_return, covar)) ->
  load tickers start_date end_date log
  = (Ok (mean_return, covar),
     (log ++ [Fetch tickers start_date end_date])%list).
Proof.
  intros Hne Hlt Hs. unfold _load_statistics, get_data.
  destruct tickers as [|s tickers]; [congruence|].
  replace (start_date >=? end_date)%Z with false
    by (symmetry; destruct (Z.geb_spec start_date end_date);
        [lia | reflexivity]).
  unfold bind, emit, lift, ret. rewrite Hs. reflexivity.
Qed.


(** X24.  When the statistics load and the core raises, the page shows that
    exception, and the chart is not attempted: the log ends where the
    failed run of the core ended. *)
Theorem page_shows_core_failure (raw : str) start_date end_date rf
    lower_bound upper_bound (log log2 : list (event str))
    mean_return covar exc :
  (2 <= List.length (parse raw))%nat ->
  lower_bound < upper_bound ->
  (start_date < end_date)%Z ->
  stooq_statistics (parse raw) start_date end_date
    = Ok (Some (mean_return, covar)) ->
  calculated_result str minimize mean_return covar rf
    (lower_bound, upper_bound)
    (log ++ [Fetch (parse raw) start_date end_date])%list
    = (Raise exc, log2) ->
  run raw start_date end_date rf lower_bound upper_bound true log
  = (st_error_failed exc, log2).
Proof.
  intros Hn Hb Hd Hs Hc. unfold page.
  replace (List.length (parse raw) <? 2)%nat with false
    by (symmetry; apply Nat.ltb_ge; exact Hn).
  replace (Rleb upper_bound lower_bound) with false
    by (symmetry; apply Rleb_false; exact Hb).
  unfold bind at 1.
  rewrite (load_ok (parse raw) start_date end_date log mean_return covar);
    [|destruct (parse raw); [simpl in Hn; lia | discriminate]
     |exact Hd|exact Hs].
  cbv beta iota. unfold bind at 1. rewrite Hc. reflexivity.
Qed.

(** X25.  With valid input and a data source that has no returns, the page
    shows the data error after one read, and the solver is not
    called. *)
Theorem page_without_data (raw : str) start_date end_date rf
    lower_bound upper_bound (log : list (event str)) :
  (2 <= List.length (parse raw))%nat ->
  lower_bound < upper_bound ->
  (start_date < end_date)%Z ->
  stooq_statistics (parse raw) start_date end_date = Ok None ->
  run raw start_date end_date rf lower_bound upper_bound true log
  = (st_error_failed
       (ValueError "No return data available for the selected inputs."),
     (log ++ [Fetch (parse raw) start_date end_date])%list).
Proof.
  intros Hn Hb Hd Hs. unfold page.
  replace (List.length (parse raw) <? 2)%nat with false
    by (symmetry; apply Nat.ltb_ge; exact Hn).
  replace (Rleb upper_bound lower_bound) with false
    by (symmetry; apply Rleb_false; exact Hb).
  unfold bind at 1. unfold _load_statistics, get_data.
  destruct (parse raw) as [|s tickers] eqn:Ep; [simpl in Hn; lia|].
  replace (start_date >=? end_date)%Z with false
    by (symmetry; destruct (Z.geb_spec start_date end_date);
        [lia | reflexivity]).
  unfold bind, emit, lift, raise. rewrite Hs. reflexivity.
Qed.

(** X26.  A text without a comma never gets past the ticker check, whatever
    the other inputs: the page shows the ticker error and does
    nothing. *)
Theorem page_needs_a_comma (raw : str) start_date end_date rf
    lower_bound upper_bound (log : list (event str)) :
  ~ In comma raw ->
  run raw start_date end_date rf lower_bound upper_bound true log
  = (st_error "Please enter at least 2 tickers.", log).
Proof.
  intros Hc. unfold page.
  pose proof (parse_count char char_eq_dec comma isspace upper raw) as Hlen.
  rewrite (proj1 (count_occ_not_In char_eq_dec raw comma) Hc) in Hlen.
  replace (List.length (parse raw) <? 2)%nat with true
    by (symmetry; apply Nat.ltb_lt; lia).
  reflexivity.
Qed.

End Facts.


(** A solver that never converges: the page shows its failure. *)
Lemma page_shows_core_failure_witness :
  fst (page_ascii solver_no_convergence flat_statistics "a, b" 0 365
                  (1 / 50) 0 1 true [])
  = st_error_failed
      (ValueError "Max Sharpe optimization failed: Iteration limit reached").
Proof.
  unfold page_ascii.
  erewrite (page_shows_core_failure ascii ascii_dec ","%char isspace_ascii
              upper_ascii solver_no_convergence flat_statistics
              (list_ascii_of_string "a, b") 0 365 (1 / 50) 0 1 []).
  - reflexivity.
  - rewrite parse_two_tickers. simpl. lia.
  - lra.
  - lia.
  - reflexivity.
  - rewrite parse_two_tickers. cbn [map].
    rewrite (calculated_result_run (App.str ascii) solver_no_convergence
               [(list_ascii_of_string "A", 0); (list_ascii_of_string "B", 0)]
               identity2 (1 / 50) (0, 1) [1 / INR 2; 1 / INR 2] _ eq_refl).
    reflexivity.
Defined.

Lemma page_without_data_witness :
  page_ascii solver_at_start (fun _ _ _ => Ok None) "a, b" 0 365
             (1 / 50) 0 1 true []
  = (st_error_failed
       (ValueError "No return data available for the selected inputs."),
     [Fetch [list_ascii_of_string "A"; list_ascii_of_string "B"] 0 365]).
Proof.
  unfold page_ascii.
  rewrite (page_without_data ascii ascii_dec ","%char isspace_ascii
             upper_ascii solver_at_start (fun _ _ _ => Ok None)
             (list_ascii_of_string "a, b") 0 365 (1 / 50) 0 1 []).
  - rewrite parse_two_tickers. reflexivity.
  - rewrite parse_two_tickers. simpl. lia.
  - lra.
  - lia.
  - reflexivity.
Defined.

Lemma page_needs_a_comma_witness :
  page_ascii solver_at_start flat_statistics "MSFT NVDA" 0 365
             (1 / 50) 0 1 true []
  = (st_error "Please enter at least 2 tickers.", []).
Proof.
  apply (page_needs_a_comma ascii ascii_dec ","%char isspace_ascii
           upper_ascii solver_at_start flat_statistics
           (list_ascii_of_string "MSFT NVDA") 0%Z 365%Z (1 / 50) 0 1 []).
  intros H. vm_compute in H.
  repeat (destruct H as [H|H]; [discriminate|]). exact H.
Defined.

End PageFacts.
